(** * kx::FileSystem, kx::File and their handlers (include/file.h, src/file.cc)

    A shallow embedding of the virtual file system: the in-memory file
    [MemFile], the stream file [RegularFile], the user-facing [File]
    wrapper, the resolution loop of [FileSystem::open] and the two
    file-system handlers.

    Conventions of the embedding.
    - A byte ([char], [std::uint8_t]) is a [Z] in [0, 256).
    - [std::size_t] is 64 bits wide: a conversion to it is [to_size_t].
      [int] is 32 bits wide ([to_int]).
    - A pointer to bytes is an address in [Z]; [nullptr] is address [0].
      Pointer arithmetic is arithmetic on addresses, and the difference
      of two pointers is their exact distance: addresses are not reduced
      modulo the word size (the arrays considered lie well inside the
      address space).  The byte memory of the process is a partial map
      from addresses to bytes; an access to an unmapped address stops the
      run with [Crash].
    - A method that mutates its object returns the new object.
    - The out-parameter [void* buffer] of [FileHandler::read] is modelled
      by the list of bytes the call writes at [buffer[0..]], in order;
      the caller stores that list where its buffer is (the heap for a
      [char*] argument, the local variable for [&c]). *)

From Stdlib Require Import ZArith List String Ascii Bool Lia.
Import ListNotations.
Local Open Scope Z_scope.

(** ** Machine integers *)

Definition byte := Z.

Definition SIZE_MAX1 : Z := 2 ^ 64.

(** Conversion to [std::size_t] (unsigned, 64 bits). *)
Definition to_size_t (x : Z) : Z := x mod SIZE_MAX1.

(** Conversion to [int] (signed, 32 bits, two's complement). *)
Definition to_int (x : Z) : Z := (x + 2 ^ 31) mod 2 ^ 32 - 2 ^ 31.

(** Conversion to [std::streamsize] (signed, 64 bits). *)
Definition to_streamsize (x : Z) : Z := (x + 2 ^ 63) mod 2 ^ 64 - 2 ^ 63.

Definition CR : byte := 13.   (* '\r' *)
Definition LF : byte := 10.   (* '\n' *)

Definition bytes_of_string (s : string) : list byte :=
  map (fun a => Z.of_N (N_of_ascii a)) (list_ascii_of_string s).

(** ** Outcomes of a run *)

Inductive fault : Type :=
| DivideByZero
| BadAccess (address : Z).

Inductive result (A : Type) : Type :=
| Ok (a : A)
| Crash (f : fault).

Arguments Ok {A} a.
Arguments Crash {A} f.

Definition bind {A B} (r : result A) (k : A -> result B) : result B :=
  match r with
  | Ok a => k a
  | Crash f => Crash f
  end.

Notation "x <- r ;; k" := (bind r (fun x => k))
  (at level 61, r at next level, right associativity).
Notation "' p <- r ;; k" := (bind r (fun x => let 'p := x in k))
  (at level 61, p pattern, r at next level, right associativity).

(** ** Byte memory *)

Definition mem := Z -> option byte.

Definition no_mem : mem := fun _ => None.

Definition load (m : mem) (a : Z) : result byte :=
  match m a with
  | Some b => Ok b
  | None => Crash (BadAccess a)
  end.

Definition store (m : mem) (a : Z) (b : byte) : result mem :=
  match m a with
  | Some _ => Ok (fun a' => if a' =? a then Some b else m a')
  | None => Crash (BadAccess a)
  end.

Fixpoint load_bytes (m : mem) (a : Z) (n : nat) : result (list byte) :=
  match n with
  | O => Ok []
  | S n' =>
      b <- load m a ;;
      bs <- load_bytes m (a + 1) n' ;;
      Ok (b :: bs)
  end.

Fixpoint store_bytes (m : mem) (a : Z) (bs : list byte) : result mem :=
  match bs with
  | [] => Ok m
  | b :: bs' =>
      m' <- store m a b ;;
      store_bytes m' (a + 1) bs'
  end.

(** [place m a bs]: the memory [m] with the block [bs] mapped at [a]
    (how a test sets up an array before it runs the code). *)
Fixpoint place (m : mem) (a : Z) (bs : list byte) : mem :=
  match bs with
  | [] => m
  | b :: bs' => fun a' => if a' =? a then Some b else place m (a + 1) bs' a'
  end.

Definition is_Ok {A} (r : result A) : bool :=
  match r with
  | Ok _ => true
  | Crash _ => false
  end.

(** ** MemFile: a file in memory *)

Inductive seekdir : Type := ios_beg | ios_cur | ios_end.

(** [std::unique_ptr<std::uint8_t>]: the address it owns, [0] when null. *)
Definition unique_ptr := Z.

Definition unique_ptr_get (p : unique_ptr) : Z := p.

(** [std::move] into a new owner: the new owner's pointer and the
    moved-from pointer, which is left null. *)
Definition unique_ptr_move (p : unique_ptr) : unique_ptr * unique_ptr := (p, 0).

Module MemFile.

(** [struct MemFile::impl] *)
Record impl : Type := mk_impl {
  data : unique_ptr;   (* owned file data, null when not owned *)
  beg : Z;             (* points to the beginning of the file *)
  pointer : Z;         (* points to the current position *)
  size : Z             (* file size *)
}.

(** [impl (std::unique_ptr<std::uint8_t> data, std::size_t size)
      : data(std::move(data)), beg(data.get()), pointer(beg), size(size)]

    Members are initialised in declaration order: [data], [beg],
    [pointer], [size].  Inside a member initialiser the name [data]
    denotes the constructor's parameter, so [beg] is read from the
    parameter after it was moved from. *)
Definition impl_owning (data_param : unique_ptr) (size_param : Z) : impl :=
  let '(data_member, data_param) := unique_ptr_move data_param in
  let beg_member := unique_ptr_get data_param in
  let pointer_member := beg_member in
  mk_impl data_member beg_member pointer_member size_param.

(** [impl (void* data, std::size_t size)
      : beg((std::uint8_t* )data), pointer(beg), size(size)] *)
Definition impl_borrowing (data_param : Z) (size_param : Z) : impl :=
  mk_impl 0 data_param data_param size_param.

(** [MemFile::MemFile (std::unique_ptr<std::uint8_t> data, std::size_t size)] *)
Definition new_owning (data_param : unique_ptr) (size_param : Z) : impl :=
  impl_owning data_param size_param.

(** [MemFile::MemFile (void* data, std::size_t size)] *)
Definition new_borrowing (data_param : Z) (size_param : Z) : impl :=
  impl_borrowing data_param size_param.

(** [MemFile::read]: the bytes copied into [buffer], the value
    returned, and the file afterwards. *)
Definition read (my : impl) (heap : mem) (size_arg : Z)
  : result (list byte * Z * impl) :=
  let remaining := to_size_t (beg my + size my - pointer my) in
  let read := Z.min remaining size_arg in
  copied <- load_bytes heap (pointer my) (Z.to_nat read) ;;   (* memcpy *)
  let my' := mk_impl (data my) (beg my) (pointer my + read) (size my) in
  if size my =? 0 then Crash DivideByZero
  else Ok (copied, read / size my, my').

(** [MemFile::seek] *)
Definition seek (my : impl) (offset : Z) (origin : seekdir) : impl :=
  match origin with
  | ios_beg => mk_impl (data my) (beg my) (beg my + offset) (size my)
  | ios_cur => mk_impl (data my) (beg my) (pointer my + offset) (size my)
  | ios_end =>
      mk_impl (data my) (beg my)
              (Z.min (beg my + size my + offset) (beg my + size my))
              (size my)
  end.

(** [MemFile::tell] *)
Definition tell (my : impl) : Z := pointer my - beg my.

(** [MemFile::size] *)
Definition size_ (my : impl) : Z := size my.

End MemFile.

(** ** std::ifstream, as far as RegularFile uses it

    [std::ifstream] belongs to the C++ standard library, not to this
    repository.  The model follows the standard's description of the
    unformatted input functions of a stream opened in binary mode on a
    file whose bytes do not change:
    - [read] does nothing but set [failbit] when the stream is not good;
      otherwise it extracts up to [n] bytes, and sets [eofbit] and
      [failbit] when it extracted fewer than [n];
    - [seekg] clears [eofbit], then does nothing when [failbit] is set;
      a target before the start of the file fails and sets [failbit], a
      target past the end is accepted;
    - [tellg] answers [-1] when the stream is not good. *)

Module ifstream.

Record t : Type := mk {
  bytes : list byte;   (* the bytes of the open file *)
  gpos : Z;            (* the get position *)
  eofbit : bool;
  failbit : bool;
  gcount_ : Z          (* bytes extracted by the last read *)
}.

Definition good (s : t) : bool := negb (eofbit s) && negb (failbit s).

(** A stream just opened on a file with these bytes. *)
Definition opened (contents : list byte) : t := mk contents 0 false false 0.

Definition read (s : t) (n : Z) : list byte * t :=
  if good s then
    let got := firstn (Z.to_nat n) (skipn (Z.to_nat (gpos s)) (bytes s)) in
    let k := Z.of_nat (List.length got) in
    let short := negb (k =? n) in
    (got, mk (bytes s) (gpos s + k) (eofbit s || short) (failbit s || short) k)
  else
    ([], mk (bytes s) (gpos s) (eofbit s) true 0).

Definition gcount (s : t) : Z := gcount_ s.

Definition seekg (s : t) (offset : Z) (origin : seekdir) : t :=
  if failbit s then mk (bytes s) (gpos s) false true (gcount_ s)
  else
    let target :=
      match origin with
      | ios_beg => offset
      | ios_cur => gpos s + offset
      | ios_end => Z.of_nat (List.length (bytes s)) + offset
      end in
    if target <? 0 then mk (bytes s) (gpos s) false true (gcount_ s)
    else mk (bytes s) target false false (gcount_ s).

Definition tellg (s : t) : Z := if good s then gpos s else -1.

End ifstream.

(** ** RegularFile: a FileHandler wrapper for an std::ifstream *)

Module RegularFile.

Record t : Type := mk {
  file : ifstream.t;
  size_ : Z
}.

(** [RegularFile::RegularFile]: computes the file size. *)
Definition new (file_ : ifstream.t) : t :=
  let file := ifstream.seekg file_ 0 ios_end in
  let size_ := to_size_t (ifstream.tellg file) in
  let file := ifstream.seekg file 0 ios_beg in
  mk file size_.

(** [RegularFile::read] *)
Definition read (r : t) (size_arg : Z) : list byte * Z * t :=
  let '(copied, file) := ifstream.read (file r) (to_streamsize size_arg) in
  (copied, to_size_t (ifstream.gcount file), mk file (size_ r)).

(** [RegularFile::seek] *)
Definition seek (r : t) (offset : Z) (origin : seekdir) : t :=
  mk (ifstream.seekg (file r) offset origin) (size_ r).

(** [RegularFile::tell] *)
Definition tell (r : t) : Z := ifstream.tellg (file r).

(** [RegularFile::size] *)
Definition size (r : t) : Z := size_ r.

End RegularFile.

(** ** FileHandler: the common interface for file implementations

    The abstract class has two implementations in the repository; a
    virtual call dispatches on which one the object is. *)

Inductive FileHandler : Type :=
| AMemFile (my : MemFile.impl)
| ARegularFile (r : RegularFile.t).

Module Handler.

Definition read (h : FileHandler) (heap : mem) (size_arg : Z)
  : result (list byte * Z * FileHandler) :=
  match h with
  | AMemFile my =>
      '(copied, n, my') <- MemFile.read my heap size_arg ;;
      Ok (copied, n, AMemFile my')
  | ARegularFile r =>
      let '(copied, n, r') := RegularFile.read r size_arg in
      Ok (copied, n, ARegularFile r')
  end.

Definition seek (h : FileHandler) (offset : Z) (origin : seekdir) : FileHandler :=
  match h with
  | AMemFile my => AMemFile (MemFile.seek my offset origin)
  | ARegularFile r => ARegularFile (RegularFile.seek r offset origin)
  end.

Definition tell (h : FileHandler) : Z :=
  match h with
  | AMemFile my => MemFile.tell my
  | ARegularFile r => RegularFile.tell r
  end.

Definition size (h : FileHandler) : Z :=
  match h with
  | AMemFile my => MemFile.size_ my
  | ARegularFile r => RegularFile.size r
  end.

End Handler.

(** ** File *)

Record File : Type := mkFile { handler : FileHandler }.

Module File_.

(** [File::read_all]: a string of [size()] zero bytes, overwritten from
    its start by one [read] of [size()] bytes. *)
Definition read_all (f : File) (heap : mem) : result (list byte * File) :=
  let contents_size := Handler.size (handler f) in
  '(copied, _, h) <- Handler.read (handler f) heap contents_size ;;
  Ok (copied ++ repeat 0 (Z.to_nat contents_size - List.length copied), mkFile h).

(** [File::read]: the value returned, the file and the memory
    afterwards ([buffer] points into the memory). *)
Definition read (f : File) (heap : mem) (buffer : Z) (size_arg : Z)
  : result (Z * File * mem) :=
  '(copied, n, h) <- Handler.read (handler f) heap size_arg ;;
  heap' <- store_bytes heap buffer copied ;;
  Ok (n, mkFile h, heap').

(** The loop of [File::read_line]; [count] iterations remain at most.
    The state is the handler, the memory, and the locals [buffer], [c]
    and [chars_read]. *)
Fixpoint read_line_loop (count : nat) (h : FileHandler) (heap : mem)
    (buffer : Z) (c : byte) (chars_read : Z)
  : result (FileHandler * mem * Z * byte * Z) :=
  match count with
  | O => Ok (h, heap, buffer, c, chars_read)
  | S count' =>
      if c =? LF then Ok (h, heap, buffer, c, chars_read)
      else
        '(copied, _, h) <- Handler.read h heap 1 ;;      (* read(&c, 1) *)
        let c := match copied with b :: _ => b | [] => c end in
        if negb (c =? CR) && negb (c =? LF) then
          heap <- store heap buffer c ;;                 (* *buffer++ = c *)
          read_line_loop count' h heap (buffer + 1) c (to_int (chars_read + 1))
        else
          read_line_loop count' h heap buffer c chars_read
  end.

(** [File::read_line] *)
Definition read_line (f : File) (heap : mem) (buffer : Z) (count : Z)
  : result (Z * File * mem) :=
  let c := 0 in
  let chars_read := 0 in
  '(h, heap, buffer, c, chars_read) <-
     read_line_loop (Z.to_nat count) (handler f) heap buffer c chars_read ;;
  let buffer := if negb (c =? LF) then buffer + 1 else buffer in
  heap <- store heap buffer 0 ;;
  Ok (to_size_t chars_read, mkFile h, heap).

(** [File::get].  The local [c] is not initialised: when the read
    copies nothing the value returned is indeterminate, [None]. *)
Definition get (f : File) (heap : mem) : result (option byte * File) :=
  let c : option byte := None in
  '(copied, _, h) <- Handler.read (handler f) heap 1 ;;
  let c := match copied with b :: _ => Some b | [] => c end in
  Ok (c, mkFile h).

(** [File::peek] *)
Definition peek (f : File) (heap : mem) : result (option byte * File) :=
  '(c, f) <- get f heap ;;
  let h := Handler.seek (handler f) (-1) ios_cur in
  Ok (c, mkFile h).

(** [File::seek] *)
Definition seek (f : File) (offset : Z) (origin : seekdir) : File :=
  mkFile (Handler.seek (handler f) offset origin).

(** [File::tell] *)
Definition tell (f : File) : Z := Handler.tell (handler f).

(** [File::size] *)
Definition size (f : File) : Z := Handler.size (handler f).

(** [File::eof] *)
Definition eof (f : File) : bool :=
  to_size_t (Handler.tell (handler f)) =? Handler.size (handler f).

End File_.

(** ** FileSystem: the ordered list of handlers and its resolution loop *)

Definition Path := string.
Definition FilePath := string.

(** The exception built by the [EXCEPTION] macro of [cpp/Exception.h]
    (a header outside this repository): it carries the message. *)
Inductive Exception : Type := EXCEPTION (what : string).

(** How a call that may throw completes. *)
Inductive completion (A : Type) : Type :=
| Return (a : A)
| Throw (e : Exception).

Arguments Return {A} a.
Arguments Throw {A} e.

Section VirtualFileSystem.

(** What a handler's [open] can see and change: disks, archives, the
    allocator.  The resolution loop only threads it through. *)
Variable World : Type.

(** [FileSystemHandler::open]: a handler, or null ([None]) on failure. *)
Definition FileSystemHandler : Type :=
  FilePath -> World -> completion (option FileHandler) * World.

(** [struct FileSystem::impl] *)
Record FileSystem : Type := mkFileSystem {
  handlers : list FileSystemHandler
}.

(** [FileSystem::FileSystem ()] *)
Definition FileSystem_new : FileSystem := mkFileSystem [].

(** [FileSystem::addHandler] *)
Definition addHandler (fs : FileSystem) (handler : FileSystemHandler) : FileSystem :=
  mkFileSystem (handlers fs ++ [handler]).

(** The loop of [FileSystem::open] over the handlers not yet tried. *)
Fixpoint open_from (hs : list FileSystemHandler) (filepath : FilePath) (w : World)
  : completion File * World :=
  match hs with
  | [] =>
      (* Throw exception only after trying all handlers *)
      (Throw (EXCEPTION ("Failed opening file " ++ filepath)), w)
  | handler :: rest =>
      match handler filepath w with
      | (Return (Some file), w') => (Return (mkFile file), w')
      | (Return None, w') => open_from rest filepath w'
      | (Throw e, w') => (Throw e, w')
      end
  end.

(** [FileSystem::open] *)
Definition open (fs : FileSystem) (filepath : FilePath) (w : World)
  : completion File * World :=
  open_from (handlers fs) filepath w.

(** Registering [hs] one after the other. *)
Definition register (fs : FileSystem) (hs : list FileSystemHandler) : FileSystem :=
  fold_left addHandler hs fs.

(** Every handler of [hs], asked in turn for [filepath] from world [w],
    returns null; [w'] is the world after the last of them. *)
Inductive all_absent (filepath : FilePath)
  : list FileSystemHandler -> World -> World -> Prop :=
| all_absent_nil w : all_absent filepath [] w w
| all_absent_cons h hs w w1 w2 :
    h filepath w = (Return None, w1) ->
    all_absent filepath hs w1 w2 ->
    all_absent filepath (h :: hs) w w2.

(** A handler that keeps to its interface: its [open] returns (a
    handler or null) and does not throw. *)
Definition returns_normally (filepath : FilePath) (h : FileSystemHandler) : Prop :=
  forall w, exists r, fst (h filepath w) = Return r.

End VirtualFileSystem.

Arguments mkFileSystem {World} handlers.
Arguments handlers {World} f.
Arguments FileSystem_new {World}.
Arguments addHandler {World} fs handler.
Arguments open_from {World} hs filepath w.
Arguments open {World} fs filepath w.
Arguments register {World} fs hs.
Arguments all_absent {World} filepath _ _ _.
Arguments returns_normally {World} filepath h.

(** ** The file-system handlers of the repository *)

(** libzip, as far as ZipFileSystem uses it.  The library is not part of
    the repository: an archive is modelled by the table of its entries,
    each with its decoded bytes. *)
Module libzip.

Definition zip : Type := list (string * list byte).

Fixpoint lookup (z : zip) (name : string) : option (list byte) :=
  match z with
  | [] => None
  | (n, bs) :: z' => if String.eqb n name then Some bs else lookup z' name
  end.

(** [zip_stat]: the [size] field it fills in; on failure the struct is
    left as it was, and the code reads it only after [zip_fopen]
    succeeded on the same name. *)
Definition zip_stat_size (z : zip) (name : string) : Z :=
  match lookup z name with
  | Some bs => Z.of_nat (List.length bs)
  | None => 0
  end.

(** [zip_fopen]: the open entry, or NULL. *)
Definition zip_fopen (z : zip) (name : string) : option (list byte) :=
  lookup z name.

(** [zip_fread]: the bytes it writes into the caller's buffer. *)
Definition zip_fread (file : list byte) (nbytes : Z) : list byte :=
  firstn (Z.to_nat nbytes) file.

End libzip.

(** The machine the handlers run on. *)
Record Machine : Type := mkMachine {
  heap : mem;
  brk : Z;                                  (* next address [new] hands out *)
  files : string -> option (list byte);     (* the disk, as std::ifstream opens it *)
  archives : string -> option libzip.zip    (* the disk, as zip_open opens it *)
}.

(** [new std::uint8_t[size]]: a fresh block of [size] bytes. *)
Definition new_array (w : Machine) (size : Z) : Z * Machine :=
  let a := brk w in
  (a, mkMachine (place (heap w) a (repeat 0 (Z.to_nat size)))
                (a + Z.max size 1) (files w) (archives w)).

(** Writing [bs] into a block at [a]. *)
Definition fill (w : Machine) (a : Z) (bs : list byte) : Machine :=
  mkMachine (place (heap w) a bs) (brk w) (files w) (archives w).

(** [RegularFileSystem::open], for the handler constructed with [root]. *)
Definition RegularFileSystem_open (root : Path) : FileSystemHandler Machine :=
  fun filepath w =>
    let filepath_ := (root ++ "/" ++ filepath)%string in
    match files w filepath_ with                      (* f->is_open() *)
    | Some contents =>
        (Return (Some (ARegularFile (RegularFile.new (ifstream.opened contents)))), w)
    | None => (Return None, w)
    end.

Section ZipBuild.

(** Whether the build defines [FILESYSTEM_DISABLE_ZIP]. *)
Variable FILESYSTEM_DISABLE_ZIP : bool.

(** [ZipFileSystem::open], for the handler constructed with [zip_file]. *)
Definition ZipFileSystem_open (zip_file : Path) : FileSystemHandler Machine :=
  fun filepath w =>
    if FILESYSTEM_DISABLE_ZIP then
      (Throw (EXCEPTION "zip files not supported in this FileSystem build"), w)
    else
      match archives w filepath with                (* zip_open(filepath, 0, NULL) *)
      | Some z =>
          let stat_size := libzip.zip_stat_size z filepath in
          match libzip.zip_fopen z filepath with
          | Some file =>
              let size := stat_size in
              let '(data, w) := new_array w size in
              let w := fill w data (libzip.zip_fread file stat_size) in
              (Return (Some (AMemFile (MemFile.new_owning data size))), w)
          | None => (Return None, w)
          end
      | None => (Return None, w)
      end.

End ZipBuild.

(** [FileSystem::FileSystem (const char* path)] *)
Definition FileSystem_of_path (path : FilePath) : FileSystem Machine :=
  addHandler FileSystem_new (RegularFileSystem_open path).

(** [FileSystem::FileSystem (const std::vector<FilePath>& paths)] *)
Definition FileSystem_of_paths (paths : list FilePath) : FileSystem Machine :=
  fold_left (fun fs path => addHandler fs (RegularFileSystem_open path))
            paths FileSystem_new.

(** ** Sequences of operations and what a caller observes *)

(** The bytes of the file a MemFile stands for. *)
Definition MemFile_contents (my : MemFile.impl) (heap : mem) : result (list byte) :=
  load_bytes heap (MemFile.beg my) (Z.to_nat (MemFile.size my)).

(** A handler a caller may use: a MemFile over a non-empty array that is
    mapped, of a length that fits [std::size_t]; a RegularFile whose
    stream is good and whose cached size is the length of the file. *)
Definition usable (h : FileHandler) (heap : mem) : bool :=
  match h with
  | AMemFile my =>
      (0 <? MemFile.size my) && (MemFile.size my <? SIZE_MAX1)
      && is_Ok (MemFile_contents my heap)
  | ARegularFile r =>
      ifstream.good (RegularFile.file r)
      && (RegularFile.size_ r =? Z.of_nat (List.length (ifstream.bytes (RegularFile.file r))))
      && (RegularFile.size_ r <? 2 ^ 63)
  end.

(** The invariant of a byte source: [0 <= position <= length]. *)
Definition in_bounds (h : FileHandler) : Prop :=
  0 <= Handler.tell h <= Handler.size h.

Inductive request : Type :=
| Read (n : Z)
| Seek (offset : Z) (origin : seekdir).

(** One request as it acts on the handler: the object after the call.
    The bytes a read copies go to the caller's array; [do_call] below
    is the same step with that store. *)
Definition perform (h : FileHandler) (heap : mem) (r : request) : result FileHandler :=
  match r with
  | Read n => '(_, _, h') <- Handler.read h heap n ;; Ok h'
  | Seek offset origin => Ok (Handler.seek h offset origin)
  end.

(** The handler after each request of a sequence. *)
Fixpoint run (h : FileHandler) (heap : mem) (rs : list request)
  : result (list FileHandler) :=
  match rs with
  | [] => Ok []
  | r :: rs' =>
      h' <- perform h heap r ;;
      hs <- run h' heap rs' ;;
      Ok (h' :: hs)
  end.

(** A request that stays inside the file.  A seek names a position in
    [0, size]; a MemFile clamps an end-relative seek from above itself.
    A read of a MemFile may ask for any count; a read of a RegularFile
    asks for no more than what remains (a short read leaves the stream
    failed). *)
Definition within (h : FileHandler) (r : request) : bool :=
  match r with
  | Read n =>
      match h with
      | AMemFile _ => (0 <=? n) && (n <? SIZE_MAX1)
      | ARegularFile _ => (0 <=? n) && (n <=? Handler.size h - Handler.tell h)
      end
  | Seek offset ios_beg => (0 <=? offset) && (offset <=? Handler.size h)
  | Seek offset ios_cur =>
      (0 <=? Handler.tell h + offset) && (Handler.tell h + offset <=? Handler.size h)
  | Seek offset ios_end =>
      match h with
      | AMemFile _ => - Handler.size h <=? offset
      | ARegularFile _ => (- Handler.size h <=? offset) && (offset <=? 0)
      end
  end.

Definition is_MemFile (h : FileHandler) : bool :=
  match h with
  | AMemFile _ => true
  | ARegularFile _ => false
  end.

(** [within], on the numbers alone: the kind of handler, the size of
    the file and the position the request is made at. *)
Definition within_at (memfile : bool) (size p : Z) (r : request) : bool :=
  match r with
  | Read n =>
      if memfile then (0 <=? n) && (n <? SIZE_MAX1)
      else (0 <=? n) && (n <=? size - p)
  | Seek offset ios_beg => (0 <=? offset) && (offset <=? size)
  | Seek offset ios_cur => (0 <=? p + offset) && (p + offset <=? size)
  | Seek offset ios_end =>
      if memfile then - size <=? offset
      else (- size <=? offset) && (offset <=? 0)
  end.

(** The position a request made at position [p] of a file of [size]
    bytes is expected to lead to. *)
Definition position_after (size p : Z) (r : request) : Z :=
  match r with
  | Read n => p + Z.min (size - p) n
  | Seek offset ios_beg => offset
  | Seek offset ios_cur => p + offset
  | Seek offset ios_end => size + Z.min offset 0
  end.

(** The expected position after each request of a sequence. *)
Fixpoint positions_after (size p : Z) (rs : list request) : list Z :=
  match rs with
  | [] => []
  | r :: rs' =>
      position_after size p r :: positions_after size (position_after size p r) rs'
  end.

(** Every request of the sequence is [within_at] the position expected
    when it is made.  Nothing here runs the code. *)
Fixpoint stays_within (memfile : bool) (size p : Z) (rs : list request) : bool :=
  match rs with
  | [] => true
  | r :: rs' =>
      within_at memfile size p r
      && stays_within memfile size (position_after size p r) rs'
  end.

(** The byte at the current position of a handler. *)
Definition byte_here (h : FileHandler) (heap : mem) : option byte :=
  match h with
  | AMemFile my => heap (MemFile.pointer my)
  | ARegularFile r =>
      nth_error (ifstream.bytes (RegularFile.file r))
                (Z.to_nat (ifstream.gpos (RegularFile.file r)))
  end.

(** One [read_line] as its caller sees it: the count returned and the
    bytes [buffer[0..span)] afterwards. *)
Definition read_line_seen (f : File) (heap : mem) (buffer count : Z) (span : nat)
  : result (Z * list byte) :=
  '(n, _, heap) <- File_.read_line f heap buffer count ;;
  seen <- load_bytes heap buffer span ;;
  Ok (n, seen).

(** Two [read_line] calls in a row into the same buffer. *)
Definition read_line_twice (f : File) (heap : mem) (buffer count : Z) (span : nat)
  : result ((Z * list byte) * (Z * list byte)) :=
  '(n1, f, heap) <- File_.read_line f heap buffer count ;;
  seen1 <- load_bytes heap buffer span ;;
  '(n2, _, heap) <- File_.read_line f heap buffer count ;;
  seen2 <- load_bytes heap buffer span ;;
  Ok ((n1, seen1), (n2, seen2)).

(** A handler for tests of the resolution loop: it appends its name to
    the log of consulted handlers and gives a fixed answer. *)
Definition logging (name : string) (answer : completion (option FileHandler))
  : FileSystemHandler (list string) :=
  fun _ log => (answer, log ++ [name]).

(** ** Fixtures: the concrete inputs of the examples *)

Module Fixture.

(** Two distinguishable files. *)
Definition file_one : FileHandler := AMemFile (MemFile.new_borrowing 4096 2).
Definition file_two : FileHandler := AMemFile (MemFile.new_borrowing 8192 5).

(** Three handlers: the first has no such file, the other two both do. *)
Definition loose : FileSystemHandler (list string) :=
  logging "loose" (Return None).
Definition bundle : FileSystemHandler (list string) :=
  logging "bundle" (Return (Some file_one)).
Definition fallback : FileSystemHandler (list string) :=
  logging "fallback" (Return (Some file_two)).

(** A second handler without the file. *)
Definition spare : FileSystemHandler (list string) :=
  logging "spare" (Return None).

(** A File over the bytes [bs], placed at address 4096, and a memory
    that holds them together with a caller's array of [room] bytes at
    address 8192, each set to 0xAA. *)
Definition file_over (bs : list byte) : File :=
  mkFile (AMemFile (MemFile.new_borrowing 4096 (Z.of_nat (List.length bs)))).

(** A File over a stream just opened on a disk file with the bytes [bs]. *)
Definition stream_over (bs : list byte) : File :=
  mkFile (ARegularFile (RegularFile.new (ifstream.opened bs))).

Definition memory_with (bs : list byte) (room : nat) : mem :=
  place (place no_mem 4096 bs) 8192 (repeat 170 room).

Definition buffer : Z := 8192.

Definition two_lines : list byte :=
  bytes_of_string "abc" ++ [CR; LF] ++ bytes_of_string "def".

(** A disk with one archive, [assets.zip], holding the entry [a.txt]. *)
Definition disk : Machine :=
  mkMachine no_mem 65536 (fun _ => None)
    (fun path =>
       if String.eqb path "assets.zip"
       then Some [("a.txt"%string, bytes_of_string "hello")]
       else None).

(** A disk on which the file [a.txt] is itself an archive that holds an
    entry [a.txt]. *)
Definition self_named : Machine :=
  mkMachine no_mem 65536 (fun _ => None)
    (fun path =>
       if String.eqb path "a.txt"
       then Some [("a.txt"%string, bytes_of_string "hello")]
       else None).

(** A disk with two directories that both hold [a.txt]. *)
Definition two_roots : Machine :=
  mkMachine no_mem 65536
    (fun path =>
       if String.eqb path "override/a.txt" then Some (bytes_of_string "new")
       else if String.eqb path "base/a.txt" then Some (bytes_of_string "old")
       else None)
    (fun _ => None).

End Fixture.

(** ** Further observations *)

(** The bytes found under the first root of [roots] that holds
    [filepath], if one does. *)
Fixpoint first_root_with (w : Machine) (filepath : FilePath) (roots : list Path)
  : option (list byte) :=
  match roots with
  | [] => None
  | root :: rest =>
      match files w (root ++ "/" ++ filepath)%string with
      | Some contents => Some contents
      | None => first_root_with w filepath rest
      end
  end.

(** A handler of one of the two classes of the repository, in a build
    with zip support. *)
Definition repository_handler (h : FileSystemHandler Machine) : Prop :=
  (exists root, h = RegularFileSystem_open root)
  \/ (exists zip_file, h = ZipFileSystem_open false zip_file).

(** The bytes of the file a handler stands for. *)
Definition Handler_contents (h : FileHandler) (heap : mem) : result (list byte) :=
  match h with
  | AMemFile my => MemFile_contents my heap
  | ARegularFile r => Ok (ifstream.bytes (RegularFile.file r))
  end.

(** The [n] bytes from address [a] on lie outside the array of the
    handler (a RegularFile has no array in memory). *)
Definition apart (h : FileHandler) (a n : Z) : Prop :=
  match h with
  | AMemFile my => a + n <= MemFile.beg my \/ MemFile.beg my + MemFile.size my <= a
  | ARegularFile _ => True
  end.

(** What [read_line] writes of the bytes it read before the line feed:
    all but the carriage returns. *)
Definition without_CR (chunk : list byte) : list byte :=
  filter (fun b => negb (b =? CR)) chunk.

(** A handler that is usable and stands for the file with bytes [cs]. *)
Definition serves (h : FileHandler) (heap : mem) (cs : list byte) : Prop :=
  usable h heap = true /\ Handler_contents h heap = Ok cs.

(** A RegularFile whose stream has [failbit] set. *)
Definition failed (h : FileHandler) : Prop :=
  match h with
  | AMemFile _ => False
  | ARegularFile r =>
      ifstream.failbit (RegularFile.file r) = true
      /\ 0 <= RegularFile.size_ r < 2 ^ 63
  end.

(** The world in which a handler registered after [hs] is asked for
    [filepath]: the one left by the last of [hs] when each of them
    returned null, and none when one of them returned a file or threw
    (the loop of [FileSystem::open] has then left). *)
Fixpoint passed_over {World} (hs : list (FileSystemHandler World))
    (filepath : FilePath) (w : World) : option World :=
  match hs with
  | [] => Some w
  | handler :: rest =>
      match handler filepath w with
      | (Return None, w') => passed_over rest filepath w'
      | _ => None
      end
  end.

(** A call on a File as its caller makes it: a read names the array
    the bytes are copied to. *)
Inductive call : Type :=
| ReadInto (buffer : Z) (n : Z)
| SeekTo (offset : Z) (origin : seekdir).

Definition request_of (c : call) : request :=
  match c with
  | ReadInto _ n => Read n
  | SeekTo offset origin => Seek offset origin
  end.

(** One call, [File::read] or [File::seek]: the File and the memory
    afterwards. *)
Definition do_call (f : File) (heap : mem) (c : call) : result (File * mem) :=
  match c with
  | ReadInto buffer n =>
      '(_, f', heap') <- File_.read f heap buffer n ;;
      Ok (f', heap')
  | SeekTo offset origin => Ok (File_.seek f offset origin, heap)
  end.

(** A sequence of calls, each made on the File and in the memory the
    one before left. *)
Fixpoint do_calls (f : File) (heap : mem) (cs : list call) : result (File * mem) :=
  match cs with
  | [] => Ok (f, heap)
  | c :: cs' =>
      '(f', heap') <- do_call f heap c ;;
      do_calls f' heap' cs'
  end.

(** The array a read copies to lies outside the array of the handler. *)
Definition destination_apart (h : FileHandler) (c : call) : Prop :=
  match c with
  | ReadInto buffer n => apart h buffer n
  | SeekTo _ _ => True
  end.

(** The array a read copies to is mapped, for the count asked or for
    the whole file if that is less, and lies outside the array of the
    handler. *)
Definition destination_ok (h : FileHandler) (heap : mem) (c : call) : Prop :=
  match c with
  | ReadInto buffer n =>
      is_Ok (load_bytes heap buffer (Z.to_nat (Z.min n (Handler.size h)))) = true
      /\ apart h buffer n
  | SeekTo _ _ => True
  end.

(** * Properties *)

(** ** The resolution loop *)

Section Resolution.

Variable World : Type.
Implicit Types (hs pre post : list (FileSystemHandler World)).
Implicit Types (h : FileSystemHandler World) (w : World).

Lemma handlers_register (fs : FileSystem World) hs :
  handlers (register fs hs) = handlers fs ++ hs.
Proof.
  revert fs. induction hs as [|h hs IH]; intros fs; simpl.
  - now rewrite app_nil_r.
  - rewrite IH. simpl. now rewrite <- app_assoc.
Qed.

Lemma open_from_skips pre filepath w w1 rest :
  all_absent filepath pre w w1 ->
  open_from (pre ++ rest) filepath w = open_from rest filepath w1.
Proof.
  induction 1 as [|h hs w w1 w2 Hh _ IH]; simpl.
  - reflexivity.
  - now rewrite Hh.
Qed.

Lemma open_from_all_absent hs filepath w w' :
  all_absent filepath hs w w' ->
  open_from hs filepath w
  = (Throw (EXCEPTION ("Failed opening file " ++ filepath)), w').
Proof.
  intros H. rewrite <- (app_nil_r hs).
  now rewrite (open_from_skips _ _ _ _ [] H).
Qed.

Lemma open_from_throws hs filepath w e w' :
  Forall (returns_normally filepath) hs ->
  open_from hs filepath w = (Throw e, w') ->
  all_absent filepath hs w w'
  /\ e = EXCEPTION ("Failed opening file " ++ filepath).
Proof.
  intros Hn. revert w. induction Hn as [|h hs Hh _ IH]; intros w; simpl.
  - intros [= <- <-]. split; [constructor | reflexivity].
  - destruct (Hh w) as [r Hr].
    destruct (h filepath w) as [c w1] eqn:E. simpl in Hr. subst c.
    destruct r as [file|].
    + discriminate.
    + intros H. destruct (IH _ H) as [Ha He].
      split; [econstructor; eassumption | exact He].
Qed.

(** C2. [open] asks the handlers in registration order and returns
    the File wrapping the source of the first handler that does not
    return null: when the handlers registered before [h] all return
    null and [h] returns [file], the result is [File file] in the
    world [h] left, whatever handlers [post] were registered after
    [h]; none of them is run. *)
Theorem open_first_registered_handler_wins pre h post filepath w w1 w2 file :
  all_absent filepath pre w w1 ->
  h filepath w1 = (Return (Some file), w2) ->
  open (register FileSystem_new (pre ++ h :: post)) filepath w
  = (Return (mkFile file), w2).
Proof.
  intros Hpre Hh. unfold open. rewrite handlers_register. simpl.
  rewrite (open_from_skips _ _ _ _ (h :: post) Hpre). simpl.
  now rewrite Hh.
Qed.

(** C3. When the handlers keep to their interface (each returns a
    handler or null, none throws), [open] raises an error if and only
    if every registered handler returns null for the path; the error
    raised is then the one whose message names the requested path, and
    no other error is raised.  An empty FileSystem fails for every
    path. *)
Theorem open_raises_iff_all_absent (fs : FileSystem World) filepath w :
  Forall (returns_normally filepath) (handlers fs) ->
  ((exists e w', open fs filepath w = (Throw e, w'))
   <-> (exists w', all_absent filepath (handlers fs) w w'))
  /\ (forall e w', open fs filepath w = (Throw e, w') ->
      e = EXCEPTION ("Failed opening file " ++ filepath))
  /\ open FileSystem_new filepath w
     = (Throw (EXCEPTION ("Failed opening file " ++ filepath)), w).
Proof.
  intros Hn. unfold open. repeat split.
  - intros (e & w' & H). exists w'.
    now destruct (open_from_throws _ _ _ _ _ Hn H).
  - intros (w' & H). eexists. exists w'.
    now apply open_from_all_absent.
  - intros e w' H. now destruct (open_from_throws _ _ _ _ _ Hn H).
Qed.

End Resolution.

Lemma open_first_registered_handler_wins_witness :
  all_absent "a.txt"%string [Fixture.loose] [] ["loose"%string]
  /\ Fixture.bundle "a.txt"%string ["loose"%string]
     = (Return (Some Fixture.file_one), ["loose"; "bundle"]%string)
  /\ open (register FileSystem_new
             ([Fixture.loose] ++ Fixture.bundle :: [Fixture.fallback]))
          "a.txt"%string []
     = (Return (mkFile Fixture.file_one), ["loose"; "bundle"]%string).
Proof.
  assert (Hpre : all_absent "a.txt"%string [Fixture.loose] [] ["loose"%string]).
  { econstructor; [reflexivity | constructor]. }
  split; [exact Hpre | split; [reflexivity |]].
  apply (open_first_registered_handler_wins (list string)
           [Fixture.loose] Fixture.bundle [Fixture.fallback]
           "a.txt"%string [] ["loose"%string] ["loose"; "bundle"]%string
           Fixture.file_one Hpre).
  reflexivity.
Defined.

(** The precedence test on the directory handlers: with two roots that
    both hold [a.txt], the root registered first serves the file. *)
Example open_prefers_first_root :
  (exists f f1,
      fst (open (FileSystem_of_paths ["override"; "base"]%string)
                "a.txt"%string Fixture.two_roots) = Return f
      /\ File_.read_all f no_mem = Ok (bytes_of_string "new", f1))
  /\ (exists f f1,
      fst (open (FileSystem_of_paths ["base"; "override"]%string)
                "a.txt"%string Fixture.two_roots) = Return f
      /\ File_.read_all f no_mem = Ok (bytes_of_string "old", f1)).
Proof.
  split; eexists; eexists; (split; reflexivity).
Qed.

Lemma logging_returns_normally filepath name r :
  returns_normally filepath (logging name (Return r)).
Proof. intros w. exists r. reflexivity. Qed.

Lemma open_raises_iff_all_absent_witness :
  let fs := register FileSystem_new [Fixture.loose; Fixture.spare] in
  Forall (returns_normally "a.txt"%string) (handlers fs)
  /\ ((exists e w', open fs "a.txt"%string [] = (Throw e, w'))
      <-> (exists w', all_absent "a.txt"%string (handlers fs) [] w'))
  /\ (forall e w', open fs "a.txt"%string [] = (Throw e, w') ->
      e = EXCEPTION "Failed opening file a.txt")
  /\ open (World := list string) FileSystem_new "a.txt"%string []
     = (Throw (EXCEPTION "Failed opening file a.txt"), []).
Proof.
  intros fs.
  assert (Hn : Forall (returns_normally "a.txt"%string) (handlers fs)).
  { repeat constructor; apply logging_returns_normally. }
  split; [exact Hn |].
  exact (open_raises_iff_all_absent (list string) fs "a.txt"%string [] Hn).
Defined.

(** ** Memory and machine integers *)

Lemma to_size_t_small x : 0 <= x < SIZE_MAX1 -> to_size_t x = x.
Proof. intros H. unfold to_size_t. now apply Z.mod_small. Qed.

Lemma to_streamsize_small x : 0 <= x < 2 ^ 63 -> to_streamsize x = x.
Proof.
  intros H. unfold to_streamsize.
  rewrite Z.mod_small; lia.
Qed.

Lemma load_bytes_length m n : forall a bs,
  load_bytes m a n = Ok bs -> List.length bs = n.
Proof.
  induction n as [|n IH]; simpl; intros a bs.
  - now intros [= <-].
  - unfold load. destruct (m a) as [b|]; simpl; [|discriminate].
    destruct (load_bytes m (a + 1) n) as [bs'|] eqn:E; simpl; [|discriminate].
    intros [= <-]. simpl. f_equal. eauto.
Qed.

(** A part of a block that loads is loaded as the matching part of the
    block's bytes. *)
Lemma load_bytes_sub m n : forall a bs off k,
  load_bytes m a n = Ok bs ->
  (off + k <= n)%nat ->
  load_bytes m (a + Z.of_nat off) k = Ok (firstn k (skipn off bs)).
Proof.
  induction n as [|n IH]; intros a bs off k.
  - simpl. intros [= <-] Hle.
    assert (off = 0%nat) by lia. assert (k = 0%nat) by lia. now subst.
  - simpl. unfold load. destruct (m a) as [b|] eqn:Ea; simpl; [|discriminate].
    destruct (load_bytes m (a + 1) n) as [bs'|] eqn:E; simpl; [|discriminate].
    intros [= <-] Hle.
    destruct off as [|off].
    + destruct k as [|k]; [reflexivity|].
      simpl. rewrite Z.add_0_r. unfold load. rewrite Ea. simpl.
      specialize (IH (a + 1) bs' 0%nat k E ltac:(lia)).
      simpl in IH. rewrite Z.add_0_r in IH. now rewrite IH.
    + replace (a + Z.of_nat (S off)) with (a + 1 + Z.of_nat off) by lia.
      simpl. apply IH; [exact E | lia].
Qed.

(** ** MemFile *)

(** What [MemFile::read] does at a position inside the file: it copies
    the [min (size - position) n] bytes at the position, advances by
    that count, and returns that count divided by the file size. *)
Lemma MemFile_read_spec my heap bs n :
  MemFile_contents my heap = Ok bs ->
  0 < MemFile.size my < SIZE_MAX1 ->
  0 <= MemFile.tell my <= MemFile.size my ->
  0 <= n ->
  MemFile.read my heap n
  = let k := Z.min (MemFile.size my - MemFile.tell my) n in
    Ok (firstn (Z.to_nat k) (skipn (Z.to_nat (MemFile.tell my)) bs),
        k / MemFile.size my,
        MemFile.mk_impl (MemFile.data my) (MemFile.beg my)
                        (MemFile.pointer my + k) (MemFile.size my)).
Proof.
  unfold MemFile_contents, MemFile.tell, MemFile.read.
  intros Hbs Hsize Hpos Hn.
  replace (MemFile.beg my + MemFile.size my - MemFile.pointer my)
    with (MemFile.size my - (MemFile.pointer my - MemFile.beg my)) by lia.
  rewrite to_size_t_small by lia.
  set (p := MemFile.pointer my - MemFile.beg my) in *.
  set (k := Z.min (MemFile.size my - p) n).
  assert (Hk : 0 <= k <= MemFile.size my - p) by (unfold k; lia).
  replace (MemFile.pointer my)
    with (MemFile.beg my + Z.of_nat (Z.to_nat p)) at 1 by lia.
  rewrite (load_bytes_sub _ _ _ _ (Z.to_nat p) (Z.to_nat k) Hbs) by lia.
  simpl.
  destruct (Z.eqb_spec (MemFile.size my) 0); [lia | reflexivity].
Qed.

(** C1. The code at a position before the end: on a 4-byte file at
    position 0, [read(buffer, 2)] copies [min (4 - 0) 2 = 2] bytes and
    advances the position by 2, but the value it returns is [2 / 4 = 0]
    (the count divided by the file size), not the byte count 2. *)
Theorem MemFile_read_returns_count_divided_by_size :
  let heap := place no_mem 4096 (bytes_of_string "ABCD") in
  let my := MemFile.new_borrowing 4096 4 in
  MemFile.read my heap 2
  = Ok (bytes_of_string "AB", 0, MemFile.mk_impl 0 4096 (4096 + 2) 4)
  /\ Z.min (MemFile.size my - MemFile.tell my) 2 = 2.
Proof. split; reflexivity. Qed.

(** The value returned at any position inside any MemFile. *)
Lemma MemFile_read_return_value my heap bs n copied ret my' :
  MemFile_contents my heap = Ok bs ->
  0 < MemFile.size my < SIZE_MAX1 ->
  0 <= MemFile.tell my <= MemFile.size my ->
  0 <= n ->
  MemFile.read my heap n = Ok (copied, ret, my') ->
  ret = Z.min (MemFile.size my - MemFile.tell my) n / MemFile.size my
  /\ Z.of_nat (List.length copied) = Z.min (MemFile.size my - MemFile.tell my) n
  /\ MemFile.tell my' = MemFile.tell my + Z.min (MemFile.size my - MemFile.tell my) n.
Proof.
  intros Hbs Hsize Hpos Hn.
  rewrite (MemFile_read_spec _ _ _ _ Hbs Hsize Hpos Hn). simpl.
  intros [= <- <- <-].
  pose proof (load_bytes_length _ _ _ _ Hbs) as Hlen.
  split; [reflexivity | split].
  - rewrite length_firstn, length_skipn. unfold MemFile.tell in *. lia.
  - unfold MemFile.tell. simpl. lia.
Qed.

(** An empty MemFile cannot be read at all: the division is by zero. *)
Lemma MemFile_read_empty my heap n :
  MemFile.size my = 0 -> MemFile.pointer my = MemFile.beg my -> 0 <= n ->
  MemFile.read my heap n = Crash DivideByZero.
Proof.
  intros Hs Hp Hn. unfold MemFile.read. rewrite Hs, Hp.
  replace (MemFile.beg my + 0 - MemFile.beg my) with 0 by lia.
  change (to_size_t 0) with 0. rewrite Z.min_l by lia. reflexivity.
Qed.

(** C6. The owning constructor leaves [beg] and [pointer] null whatever
    buffer it is given ([beg] is read from the moved-from parameter), so
    the position starts at 0 but a read does not copy the supplied
    bytes: on a 3-byte buffer at address 4096 a read of 3 bytes
    dereferences address 0.  The borrowing constructor on the same
    buffer copies the 3 bytes. *)
Theorem MemFile_owning_constructor_loses_buffer :
  (forall data size,
      MemFile.beg (MemFile.new_owning data size) = 0
      /\ MemFile.pointer (MemFile.new_owning data size) = 0
      /\ MemFile.data (MemFile.new_owning data size) = data
      /\ MemFile.tell (MemFile.new_owning data size) = 0)
  /\ (let heap := place no_mem 4096 [1; 2; 3] in
      MemFile.read (MemFile.new_owning 4096 3) heap 3 = Crash (BadAccess 0)
      /\ MemFile.read (MemFile.new_borrowing 4096 3) heap 3
         = Ok ([1; 2; 3], 1, MemFile.mk_impl 0 4096 (4096 + 3) 3)).
Proof.
  split.
  - intros data size. repeat split.
  - split; reflexivity.
Qed.

(** C7 (as stated, at L = 3): [seek(-(L+10), end)] leaves the position
    at -10, not at 0. *)
Lemma MemFile_seek_end_overshoot_is_negative :
  let my := MemFile.seek (MemFile.new_borrowing 4096 3) (- (3 + 10)) ios_end in
  MemFile.tell my = -10 /\ MemFile.tell my <> 0.
Proof. split; [reflexivity | discriminate]. Qed.

(** C7 (amended). An end-relative seek leaves the position at
    [min (L + offset) L], which is never above [L]; there is no clamp
    from below, and [seek(-(L+10), end)] leaves the position at -10. *)
Theorem MemFile_seek_end_clamps_from_above_only my offset :
  0 <= MemFile.size my ->
  MemFile.tell (MemFile.seek my offset ios_end)
  = Z.min (MemFile.size my + offset) (MemFile.size my)
  /\ MemFile.tell (MemFile.seek my offset ios_end) <= MemFile.size my
  /\ MemFile.size (MemFile.seek my offset ios_end) = MemFile.size my
  /\ MemFile.tell (MemFile.seek my (- (MemFile.size my + 10)) ios_end) = -10.
Proof.
  intros Hsize. unfold MemFile.tell. simpl. repeat split; lia.
Qed.

Lemma MemFile_seek_end_clamps_from_above_only_witness :
  let my := MemFile.new_borrowing 4096 3 in
  0 <= MemFile.size my
  /\ MemFile.tell (MemFile.seek my 7 ios_end) = Z.min (3 + 7) 3
  /\ MemFile.tell (MemFile.seek my 7 ios_end) <= 3
  /\ MemFile.size (MemFile.seek my 7 ios_end) = 3
  /\ MemFile.tell (MemFile.seek my (- (3 + 10)) ios_end) = -10.
Proof.
  intros my. split; [simpl; lia |].
  apply (MemFile_seek_end_clamps_from_above_only my 7). simpl. lia.
Defined.

(** ** File::read_line *)

(** C4. The code on ["abc\r\ndef"] with [count = 16]: the first call
    writes ["abc"], a NUL right after it, and returns 3.  The second
    call reads ["def"], then finds the data exhausted: each further
    [read] copies nothing, [c] keeps the value ['f'], and the loop
    writes it again until [count] runs out.  It returns 16, not 3; the
    buffer holds ["def"] followed by thirteen more ['f'], and the NUL is
    stored at [buffer[17]], past the 16 bytes the caller offered.  The
    same happens over a MemFile and over a RegularFile. *)
Theorem read_line_repeats_last_byte_at_end_of_data :
  read_line_twice (Fixture.file_over Fixture.two_lines)
                  (Fixture.memory_with Fixture.two_lines 20)
                  Fixture.buffer 16 20
  = Ok ((3, bytes_of_string "abc" ++ [0] ++ repeat 170 16),
        (16, bytes_of_string "def" ++ repeat 102 13 ++ [170; 0; 170; 170]))
  /\ read_line_twice (Fixture.stream_over Fixture.two_lines)
                     (Fixture.memory_with [] 20)
                     Fixture.buffer 16 20
     = Ok ((3, bytes_of_string "abc" ++ [0] ++ repeat 170 16),
           (16, bytes_of_string "def" ++ repeat 102 13 ++ [170; 0; 170; 170])).
Proof. split; vm_compute; reflexivity. Qed.

(** What holds of every call: a byte of memory that [read_line] changed
    is neither a carriage return nor a line feed. *)
Lemma store_changes m a b m' :
  store m a b = Ok m' ->
  forall a', m' a' = m a' \/ m' a' = Some b.
Proof.
  unfold store. destruct (m a); [|discriminate].
  intros [= <-] a'. destruct (a' =? a); auto.
Qed.

Lemma read_line_loop_never_stores_CR_or_LF count :
  forall h heap buffer c chars_read h' heap' buffer' c' chars_read',
  File_.read_line_loop count h heap buffer c chars_read
  = Ok (h', heap', buffer', c', chars_read') ->
  forall a, heap' a = heap a
            \/ exists b, heap' a = Some b /\ b <> CR /\ b <> LF.
Proof.
  induction count as [|count IH]; simpl;
    intros h heap buffer c chars_read h' heap' buffer' c' chars_read'.
  - intros [= _ <- _ _ _] a. now left.
  - destruct (c =? LF).
    + intros [= _ <- _ _ _] a. now left.
    + destruct (Handler.read h heap 1) as [[[copied n] h1]|]; simpl; [|discriminate].
      set (c1 := match copied with [] => c | b :: _ => b end).
      destruct (Z.eqb_spec c1 CR) as [|Hcr]; simpl.
      { intros H a. exact (IH _ _ _ _ _ _ _ _ _ _ H a). }
      destruct (Z.eqb_spec c1 LF) as [|Hlf]; simpl.
      { intros H a. exact (IH _ _ _ _ _ _ _ _ _ _ H a). }
      destruct (store heap buffer c1) as [heap1|] eqn:Es; simpl; [|discriminate].
      intros H a.
      destruct (IH _ _ _ _ _ _ _ _ _ _ H a) as [Hsame|Hnew]; [|now right].
      destruct (store_changes _ _ _ _ Es a) as [Hold|Hc1].
      * left. congruence.
      * right. exists c1. split; [congruence | split; assumption].
Qed.

Lemma read_line_never_stores_CR_or_LF f heap buffer count n f' heap' :
  File_.read_line f heap buffer count = Ok (n, f', heap') ->
  forall a, heap' a = heap a
            \/ exists b, heap' a = Some b /\ b <> CR /\ b <> LF.
Proof.
  unfold File_.read_line.
  destruct (File_.read_line_loop (Z.to_nat count) (handler f) heap buffer 0 0)
    as [[[[[h1 heap1] buffer1] c1] chars1]|] eqn:Eloop; simpl; [|discriminate].
  destruct (store heap1 _ 0) as [heap2|] eqn:Es; simpl; [|discriminate].
  intros [= _ _ <-] a.
  destruct (store_changes _ _ _ _ Es a) as [Hold|Hnul].
  - rewrite Hold. exact (read_line_loop_never_stores_CR_or_LF _ _ _ _ _ _ _ _ _ _ _ Eloop a).
  - right. exists 0. split; [exact Hnul | split; discriminate].
Qed.

(** C8. The code with [max_count = 3] on ["abcdef"]: it writes three
    characters, not at most two, skips [buffer[3]] and stores the NUL at
    [buffer[4]]; with an array of exactly three bytes that store is
    outside the array.  On the other exit path (["ab\ncd"], line feed
    found) the NUL comes right after the last character written. *)
Theorem read_line_buffer_full_path_off_by_one :
  read_line_seen (Fixture.file_over (bytes_of_string "abcdef"))
                 (Fixture.memory_with (bytes_of_string "abcdef") 6)
                 Fixture.buffer 3 6
  = Ok (3, bytes_of_string "abc" ++ [170; 0; 170])
  /\ read_line_seen (Fixture.file_over (bytes_of_string "abcdef"))
                    (Fixture.memory_with (bytes_of_string "abcdef") 3)
                    Fixture.buffer 3 3
     = Crash (BadAccess (Fixture.buffer + 4))
  /\ read_line_seen (Fixture.file_over (bytes_of_string "ab" ++ [LF] ++ bytes_of_string "cd"))
                    (Fixture.memory_with (bytes_of_string "ab" ++ [LF] ++ bytes_of_string "cd") 6)
                    Fixture.buffer 6 6
     = Ok (2, bytes_of_string "ab" ++ [0; 170; 170; 170]).
Proof. repeat split; vm_compute; reflexivity. Qed.

(** ** ZipFileSystem *)

(** C5. [ZipFileSystem::open] never looks at the archive path the
    handler was constructed with: it hands the entry name to [zip_open].
    With the archive [assets.zip] holding the entry [a.txt], the handler
    constructed with ["assets.zip"] returns null for ["a.txt"]. *)
Theorem ZipFileSystem_open_ignores_archive_path :
  (forall zip_file zip_file' filepath w,
      ZipFileSystem_open false zip_file filepath w
      = ZipFileSystem_open false zip_file' filepath w)
  /\ (exists z, archives Fixture.disk "assets.zip"%string = Some z
                /\ libzip.zip_fopen z "a.txt"%string = Some (bytes_of_string "hello"))
  /\ fst (ZipFileSystem_open false "assets.zip"%string "a.txt"%string Fixture.disk)
     = Return None.
Proof.
  split; [reflexivity | split].
  - eexists. split; reflexivity.
  - reflexivity.
Qed.

(** The one case in which the handler finds something: the entry name
    is also the path of an archive.  The entry is decoded into a fresh
    array, but the MemFile returned has a null [beg] (it is built by the
    owning constructor) and cannot be read. *)
Example ZipFileSystem_open_self_named_archive :
  exists w',
    ZipFileSystem_open false "assets.zip"%string "a.txt"%string Fixture.self_named
    = (Return (Some (AMemFile (MemFile.mk_impl 65536 0 0 5))), w')
    /\ load_bytes (heap w') 65536 5 = Ok (bytes_of_string "hello")
    /\ MemFile.read (MemFile.mk_impl 65536 0 0 5) (heap w') 5 = Crash (BadAccess 0).
Proof. eexists. split; [reflexivity | split; reflexivity]. Qed.

(** In a build that defines [FILESYSTEM_DISABLE_ZIP] the handler throws
    instead of returning null, and [FileSystem::open] lets the exception
    through without asking the handlers registered after it. *)
Example open_propagates_handler_exception :
  fst (open (register FileSystem_new
               [ZipFileSystem_open true "assets.zip"%string;
                RegularFileSystem_open "override"%string])
            "a.txt"%string Fixture.two_roots)
  = Throw (EXCEPTION "zip files not supported in this FileSystem build").
Proof. reflexivity. Qed.

(** ** Byte sources: positions under reads and seeks *)

#[local] Arguments Z.pow _ _ : simpl never.

Ltac unbool :=
  repeat match goal with
  | H : (_ && _)%bool = true |- _ => apply andb_true_iff in H; destruct H
  | H : (_ <? _) = true |- _ => apply Z.ltb_lt in H
  | H : (_ <=? _) = true |- _ => apply Z.leb_le in H
  | H : (_ =? _) = true |- _ => apply Z.eqb_eq in H
  | H : negb _ = true |- _ => apply negb_true_iff in H
  | H : is_Ok ?r = true |- _ =>
      let E := fresh "E" in destruct r eqn:E; [clear H | discriminate H]
  end.

Lemma usable_MemFile my heap :
  usable (AMemFile my) heap = true ->
  0 < MemFile.size my < SIZE_MAX1
  /\ exists bs, MemFile_contents my heap = Ok bs.
Proof.
  simpl. intros H. unbool. split; [lia | eauto].
Qed.

Lemma usable_RegularFile r heap :
  usable (ARegularFile r) heap = true ->
  ifstream.eofbit (RegularFile.file r) = false
  /\ ifstream.failbit (RegularFile.file r) = false
  /\ RegularFile.size_ r = Z.of_nat (List.length (ifstream.bytes (RegularFile.file r)))
  /\ RegularFile.size_ r < 2 ^ 63
  /\ RegularFile.tell r = ifstream.gpos (RegularFile.file r).
Proof.
  simpl. unfold RegularFile.tell, ifstream.tellg, ifstream.good. intros H.
  unbool.
  match goal with
  | He : ifstream.eofbit _ = false, Hf : ifstream.failbit _ = false |- _ =>
      rewrite He, Hf
  end.
  simpl. repeat split; assumption.
Qed.

(** An in-range read of a good stream is not short. *)
Lemma ifstream_read_exact s n :
  ifstream.eofbit s = false -> ifstream.failbit s = false ->
  0 <= ifstream.gpos s ->
  0 <= n <= Z.of_nat (List.length (ifstream.bytes s)) - ifstream.gpos s ->
  ifstream.read s n
  = (firstn (Z.to_nat n) (skipn (Z.to_nat (ifstream.gpos s)) (ifstream.bytes s)),
     ifstream.mk (ifstream.bytes s) (ifstream.gpos s + n) false false n).
Proof.
  intros He Hf Hp Hn. unfold ifstream.read, ifstream.good. rewrite He, Hf. simpl.
  assert (Hlen : Z.of_nat (List.length (firstn (Z.to_nat n)
                    (skipn (Z.to_nat (ifstream.gpos s)) (ifstream.bytes s)))) = n).
  { rewrite length_firstn, length_skipn. lia. }
  rewrite Hlen, Z.eqb_refl. reflexivity.
Qed.

(** One request that is [within] the file keeps a usable handler usable
    and the position inside [0, size]; the request does not crash. *)
Lemma perform_keeps_bounds h heap r :
  usable h heap = true -> in_bounds h -> within h r = true ->
  exists h', perform h heap r = Ok h'
             /\ usable h' heap = true /\ in_bounds h'
             /\ Handler.size h' = Handler.size h.
Proof.
  intros Hu Hb Hw. destruct h as [my|rf].
  - destruct (usable_MemFile _ _ Hu) as (Hsize & bs & Hbs).
    unfold in_bounds in *. simpl in Hb.
    destruct r as [n|offset origin].
    + simpl in Hw. unbool.
      simpl. rewrite (MemFile_read_spec _ _ _ _ Hbs Hsize Hb) by assumption.
      simpl. eexists. split; [reflexivity|].
      split; [exact Hu|]. split; [|reflexivity].
      simpl. unfold MemFile.tell, MemFile.size_ in *. simpl. lia.
    + destruct origin; simpl in Hw; unbool; simpl;
        (eexists; split; [reflexivity|]; split; [exact Hu|]; split; [|reflexivity]);
        simpl; unfold MemFile.tell, MemFile.size_ in *; simpl; lia.
  - destruct (usable_RegularFile _ _ Hu) as (He & Hf & Hsz & Hmax & Ht).
    unfold in_bounds in *. simpl in Hb. rewrite Ht in Hb.
    unfold RegularFile.size in Hb.
    destruct rf as [s sz]. simpl in *.
    destruct r as [n|offset origin].
    + simpl in Hw. rewrite Ht in Hw. unbool.
      simpl. unfold RegularFile.read. simpl.
      rewrite to_streamsize_small by lia.
      rewrite ifstream_read_exact by (try assumption; lia).
      simpl. eexists. split; [reflexivity|].
      split; [|split; [|reflexivity]].
      * unfold ifstream.good. simpl.
        apply andb_true_iff. split; [now apply Z.eqb_eq | now apply Z.ltb_lt].
      * simpl. unfold RegularFile.tell, RegularFile.size, ifstream.tellg, ifstream.good.
        simpl. lia.
    + assert (Hseek : forall target, 0 <= target <= sz ->
                usable (ARegularFile (RegularFile.mk
                  (ifstream.mk (ifstream.bytes s) target false false (ifstream.gcount_ s)) sz))
                  heap = true
                /\ 0 <= Handler.tell (ARegularFile (RegularFile.mk
                  (ifstream.mk (ifstream.bytes s) target false false (ifstream.gcount_ s)) sz))
                   <= sz).
      { intros target Htarget. split.
        - unfold ifstream.good. simpl.
          apply andb_true_iff. split; [now apply Z.eqb_eq | now apply Z.ltb_lt].
        - simpl. unfold RegularFile.tell, ifstream.tellg, ifstream.good. simpl. lia. }
      simpl. unfold RegularFile.seek, ifstream.seekg. simpl. rewrite Hf.
      destruct origin; simpl in Hw; try rewrite Ht in Hw; unbool.
      * destruct (Z.ltb_spec offset 0); [lia|].
        eexists. split; [reflexivity|].
        destruct (Hseek offset ltac:(lia)) as [Hu1 Hb1].
        split; [exact Hu1 | split; [exact Hb1 | reflexivity]].
      * destruct (Z.ltb_spec (ifstream.gpos s + offset) 0); [lia|].
        eexists. split; [reflexivity|].
        destruct (Hseek (ifstream.gpos s + offset) ltac:(lia)) as [Hu1 Hb1].
        split; [exact Hu1 | split; [exact Hb1 | reflexivity]].
      * destruct (Z.ltb_spec (Z.of_nat (List.length (ifstream.bytes s)) + offset) 0); [lia|].
        eexists. split; [reflexivity|].
        destruct (Hseek (Z.of_nat (List.length (ifstream.bytes s)) + offset) ltac:(lia))
          as [Hu1 Hb1].
        split; [exact Hu1 | split; [exact Hb1 | reflexivity]].
Qed.

(** C9 (as stated, on a MemFile of length 3): a begin-relative seek to
    offset 5 is performed as asked and leaves the position at 5, above
    the length. *)
Lemma MemFile_seek_beg_past_end_leaves_bounds :
  let h := AMemFile (MemFile.new_borrowing 4096 3) in
  let heap := place no_mem 4096 [1; 2; 3] in
  usable h heap = true /\ in_bounds h
  /\ exists h', run h heap [Seek 5 ios_beg] = Ok [h']
                /\ Handler.tell h' = 5 /\ Handler.size h' = 3
                /\ ~ in_bounds h'.
Proof.
  split; [reflexivity | split].
  - unfold in_bounds. simpl. unfold MemFile.tell, MemFile.size_. simpl. lia.
  - eexists. split; [reflexivity|]. split; [reflexivity|]. split; [reflexivity|].
    unfold in_bounds. simpl. unfold MemFile.tell, MemFile.size_. simpl. lia.
Qed.

(** Other ways out of [0, size]: a current-relative seek below the
    start of a MemFile, a read of a MemFile already past the end, a
    short read of a RegularFile. *)
Example MemFile_seek_cur_below_start :
  Handler.tell (Handler.seek (AMemFile (MemFile.new_borrowing 4096 3)) (-1) ios_cur) = -1.
Proof. reflexivity. Qed.

Example MemFile_read_past_end_keeps_going :
  let heap := place no_mem 4096 [1; 2; 3; 4; 5; 6; 7; 8] in
  let my := MemFile.seek (MemFile.new_borrowing 4096 3) 5 ios_beg in
  MemFile.tell my = 5
  /\ MemFile.read my heap 2 = Ok ([6; 7], 0, MemFile.mk_impl 0 4096 (4096 + 7) 3).
Proof. split; reflexivity. Qed.

Example RegularFile_short_read_fails_stream :
  let r := RegularFile.new (ifstream.opened [1; 2; 3]) in
  RegularFile.tell r = 0 /\ RegularFile.size r = 3
  /\ exists r', RegularFile.read r 5 = ([1; 2; 3], 3, r') /\ RegularFile.tell r' = -1.
Proof. split; [reflexivity | split; [reflexivity|]]. eexists. split; reflexivity. Qed.

(** A RegularFile too leaves the range on a seek outside it: below the
    start the stream fails, past the end the position is taken as asked. *)
Example RegularFile_seek_outside_file :
  let r := RegularFile.new (ifstream.opened [1; 2; 3]) in
  RegularFile.size r = 3
  /\ RegularFile.tell (RegularFile.seek r (-1) ios_beg) = -1
  /\ RegularFile.tell (RegularFile.seek r 5 ios_beg) = 5.
Proof. repeat split. Qed.

Lemma within_is_within_at h r :
  within h r
  = within_at (is_MemFile h) (Handler.size h) (Handler.tell h) r.
Proof. destruct h; destruct r as [n|offset origin]; try destruct origin; reflexivity. Qed.

(** Where a request that is [within] the file leaves the position. *)
Lemma perform_position h heap r h' :
  usable h heap = true -> in_bounds h -> within h r = true ->
  perform h heap r = Ok h' ->
  Handler.tell h' = position_after (Handler.size h) (Handler.tell h) r
  /\ is_MemFile h' = is_MemFile h.
Proof.
  intros Hu Hb Hw. destruct h as [my|rf].
  - destruct (usable_MemFile _ _ Hu) as (Hsize & bs & Hbs).
    unfold in_bounds in *. simpl in Hb.
    destruct r as [n|offset origin].
    + simpl in Hw. unbool.
      simpl. rewrite (MemFile_read_spec _ _ _ _ Hbs Hsize Hb) by assumption.
      simpl. intros [= <-]. split; [|reflexivity].
      simpl. unfold MemFile.tell, MemFile.size_ in *. simpl. lia.
    + simpl. intros [= <-]. split; [|reflexivity].
      destruct origin; simpl; unfold MemFile.tell, MemFile.size_ in *; simpl; lia.
  - destruct (usable_RegularFile _ _ Hu) as (He & Hf & Hsz & Hmax & Ht).
    unfold in_bounds in *. simpl in Hb. rewrite Ht in Hb.
    unfold RegularFile.size in Hb.
    destruct rf as [s sz]. simpl in *.
    destruct r as [n|offset origin].
    + simpl in Hw. rewrite Ht in Hw. unbool.
      simpl. unfold RegularFile.read. simpl.
      rewrite to_streamsize_small by lia.
      rewrite ifstream_read_exact by (try assumption; lia).
      simpl. intros [= <-]. split; [|reflexivity].
      simpl. rewrite Ht.
      unfold RegularFile.tell, RegularFile.size, ifstream.tellg, ifstream.good.
      simpl. lia.
    + simpl. unfold RegularFile.seek, ifstream.seekg. simpl. rewrite Hf.
      destruct origin; simpl in Hw; try rewrite Ht in Hw; unbool.
      * destruct (Z.ltb_spec offset 0); [lia|].
        intros [= <-]. split; [|reflexivity].
        simpl. unfold RegularFile.tell, ifstream.tellg, ifstream.good. simpl. lia.
      * destruct (Z.ltb_spec (ifstream.gpos s + offset) 0); [lia|].
        intros [= <-]. split; [|reflexivity].
        simpl. rewrite Ht.
        unfold RegularFile.tell, ifstream.tellg, ifstream.good. simpl. lia.
      * destruct (Z.ltb_spec (Z.of_nat (List.length (ifstream.bytes s)) + offset) 0); [lia|].
        intros [= <-]. split; [|reflexivity].
        simpl. unfold RegularFile.tell, RegularFile.size, ifstream.tellg, ifstream.good.
        simpl. lia.
Qed.

(** C9 (amended). Take a usable handler whose position is in
    [0, size] and a sequence of reads and seeks each of which is
    [within_at] the position expected when it is made (a condition on
    the requests alone).  Then the sequence runs to its end without a
    crash, the position after each request is the expected one and lies
    in [0, size], and the size never changes.  Every read of a MemFile
    is within, whatever count it asks for: no read moves the position
    past the length.  The invariant does not hold for all sequences: a
    MemFile performs seeks from the beginning and from the current
    position unclamped, at [offset] and at [position + offset] for
    every offset. *)
Theorem position_in_bounds_after_every_admissible_request h heap rs :
  usable h heap = true -> in_bounds h ->
  stays_within (is_MemFile h) (Handler.size h) (Handler.tell h) rs = true ->
  (exists trace, run h heap rs = Ok trace
                 /\ List.length trace = List.length rs
                 /\ map Handler.tell trace
                    = positions_after (Handler.size h) (Handler.tell h) rs
                 /\ Forall in_bounds trace
                 /\ Forall (fun h' => Handler.size h' = Handler.size h) trace)
  /\ (forall my offset,
        MemFile.tell (MemFile.seek my offset ios_beg) = offset
        /\ MemFile.tell (MemFile.seek my offset ios_cur) = MemFile.tell my + offset).
Proof.
  intros Hu Hb Ha. split.
  - revert h Hu Hb Ha. induction rs as [|r rs IH]; intros h Hu Hb Ha.
    + exists []. repeat split; constructor.
    + cbn [stays_within] in Ha. apply andb_true_iff in Ha. destruct Ha as [Hw Ha].
      rewrite <- within_is_within_at in Hw.
      destruct (perform_keeps_bounds _ _ _ Hu Hb Hw) as (h' & Hp & Hu' & Hb' & Hs').
      destruct (perform_position _ _ _ _ Hu Hb Hw Hp) as [Ht' Hk'].
      rewrite <- Ht', <- Hs', <- Hk' in Ha.
      destruct (IH _ Hu' Hb' Ha) as (trace & Hrun & Hlen & Hpos & Hall & Hsize).
      exists (h' :: trace). cbn [run]. rewrite Hp. cbn [bind]. rewrite Hrun. cbn [bind].
      split; [reflexivity|]. split; [cbn; now rewrite Hlen|]. split; [|split].
      * cbn [map positions_after]. rewrite Hpos, Ht', Hs'. reflexivity.
      * now constructor.
      * constructor; [exact Hs'|].
        eapply Forall_impl; [|exact Hsize]. intros g Hg. congruence.
  - intros my offset. unfold MemFile.tell. cbn. lia.
Qed.

Lemma position_in_bounds_after_every_admissible_request_witness :
  let h := AMemFile (MemFile.new_borrowing 4096 3) in
  let heap := place no_mem 4096 [1; 2; 3] in
  let rs := [Read 2; Read 5; Seek (-3) ios_cur; Seek 7 ios_end; Seek (-3) ios_end;
             Seek 1 ios_beg; Read 0; Read 18446744073709551615] in
  usable h heap = true /\ in_bounds h
  /\ stays_within (is_MemFile h) (Handler.size h) (Handler.tell h) rs = true
  /\ (exists trace, run h heap rs = Ok trace
                    /\ List.length trace = List.length rs
                    /\ map Handler.tell trace = [2; 3; 0; 3; 0; 1; 1; 3]
                    /\ Forall in_bounds trace
                    /\ Forall (fun h' => Handler.size h' = Handler.size h) trace).
Proof.
  intros h heap rs.
  assert (Hu : usable h heap = true) by reflexivity.
  assert (Hb : in_bounds h).
  { unfold in_bounds. simpl. unfold MemFile.tell, MemFile.size_. simpl. lia. }
  assert (Ha : stays_within (is_MemFile h) (Handler.size h) (Handler.tell h) rs = true)
    by (vm_compute; reflexivity).
  split; [exact Hu | split; [exact Hb | split; [exact Ha |]]].
  exact (proj1 (position_in_bounds_after_every_admissible_request h heap rs Hu Hb Ha)).
Defined.

(** ** File::get and File::peek *)

Lemma firstn_one_skipn (l : list byte) : forall n,
  (n < List.length l)%nat ->
  exists b, nth_error l n = Some b /\ firstn 1 (skipn n l) = [b].
Proof.
  induction l as [|x l IH]; intros n Hn; simpl in Hn; [lia|].
  destruct n as [|n].
  - exists x. split; reflexivity.
  - simpl. apply IH. lia.
Qed.

(** Reading one byte at a position inside the file, and stepping back. *)
Lemma Handler_read_one h heap :
  usable h heap = true ->
  0 <= Handler.tell h < Handler.size h ->
  exists b n h',
    Handler.read h heap 1 = Ok ([b], n, h')
    /\ byte_here h heap = Some b
    /\ Handler.tell h' = Handler.tell h + 1
    /\ usable (Handler.seek h' (-1) ios_cur) heap = true
    /\ Handler.tell (Handler.seek h' (-1) ios_cur) = Handler.tell h
    /\ Handler.size (Handler.seek h' (-1) ios_cur) = Handler.size h
    /\ byte_here (Handler.seek h' (-1) ios_cur) heap = byte_here h heap.
Proof.
  intros Hu Hpos. destruct h as [my|rf].
  - destruct (usable_MemFile _ _ Hu) as (Hsize & bs & Hbs).
    simpl in Hpos. unfold MemFile.size_ in Hpos.
    simpl. rewrite (MemFile_read_spec _ _ _ _ Hbs Hsize) by lia.
    rewrite Z.min_r by lia.
    pose proof (load_bytes_sub _ _ _ _ (Z.to_nat (MemFile.tell my)) 1%nat Hbs
                  ltac:(lia)) as Hone.
    rewrite Z2Nat.id in Hone by lia.
    unfold MemFile.tell in Hone at 1.
    replace (MemFile.beg my + (MemFile.pointer my - MemFile.beg my))
      with (MemFile.pointer my) in Hone by lia.
    cbn [load_bytes bind] in Hone. unfold load in Hone.
    destruct (heap (MemFile.pointer my)) as [b|] eqn:Eb; [|discriminate].
    cbn [bind] in Hone.
    assert (Hcopied : firstn 1 (skipn (Z.to_nat (MemFile.tell my)) bs) = [b])
      by congruence.
    cbv zeta. change (Z.to_nat 1) with 1%nat. rewrite Hcopied. simpl.
    exists b. eexists. eexists. split; [reflexivity|].
    split; [reflexivity|].
    simpl. unfold MemFile.tell, MemFile.size_. simpl.
    replace (MemFile.pointer my + 1 + -1) with (MemFile.pointer my) by lia.
    split; [lia|]. split; [exact Hu|]. split; [lia|].
    split; [reflexivity | exact Eb].
  - destruct (usable_RegularFile _ _ Hu) as (He & Hf & Hsz & Hmax & Ht).
    simpl in Hpos. rewrite Ht in Hpos. unfold RegularFile.size in Hpos.
    destruct rf as [s sz]. simpl in He, Hf, Hsz, Hmax, Hpos.
    destruct (firstn_one_skipn (ifstream.bytes s) (Z.to_nat (ifstream.gpos s))
                ltac:(lia)) as (b & Hnth & Hfirst).
    simpl. unfold RegularFile.read. simpl.
    rewrite to_streamsize_small by lia.
    rewrite ifstream_read_exact by (try assumption; lia).
    change (Z.to_nat 1) with 1%nat. rewrite Hfirst. simpl.
    exists b. eexists. eexists. split; [reflexivity|].
    split; [exact Hnth|].
    simpl.
    unfold RegularFile.seek, RegularFile.tell, RegularFile.size,
      ifstream.seekg, ifstream.tellg, ifstream.good. simpl.
    rewrite He, Hf. simpl.
    destruct (Z.ltb_spec (ifstream.gpos s + 1 + -1) 0); [lia|]. simpl.
    replace (ifstream.gpos s + 1 + -1) with (ifstream.gpos s) by lia.
    split; [reflexivity|]. split; [|repeat split].
    apply andb_true_iff. split; [now apply Z.eqb_eq | now apply Z.ltb_lt].
Qed.

(** C10 (as stated, at the end of a 2-byte file): [peek] reads nothing,
    returns an indeterminate value and still steps back, leaving the
    position at 1; the [get] that follows returns the last byte and the
    position is 2 again, an advance of 0 in total. *)
Lemma peek_at_end_of_file_moves_back :
  let f := File_.seek (Fixture.file_over (bytes_of_string "ab")) 0 ios_end in
  let heap := Fixture.memory_with (bytes_of_string "ab") 0 in
  File_.tell f = 2 /\ File_.size f = 2
  /\ exists f1 f2,
      File_.peek f heap = Ok (None, f1) /\ File_.tell f1 = 1
      /\ File_.tell f1 <> File_.tell f
      /\ File_.get f1 heap = Ok (Some 98, f2) /\ File_.tell f2 = 2.
Proof.
  split; [reflexivity | split; [reflexivity|]].
  eexists. eexists. split; [reflexivity|]. split; [reflexivity|].
  split; [discriminate|]. split; reflexivity.
Qed.

(** C10 (amended). At every position inside the file, [0 <= position <
    size], of a usable handler, [peek] returns the byte at the position
    and leaves the position unchanged, and the [get] that follows
    returns the same byte and leaves the position one further. *)
Theorem peek_then_get_inside_file f heap :
  usable (handler f) heap = true ->
  0 <= File_.tell f < File_.size f ->
  exists b f1 f2,
    byte_here (handler f) heap = Some b
    /\ File_.peek f heap = Ok (Some b, f1)
    /\ File_.tell f1 = File_.tell f
    /\ File_.get f1 heap = Ok (Some b, f2)
    /\ File_.tell f2 = File_.tell f + 1.
Proof.
  intros Hu Hpos. destruct f as [h]. unfold File_.tell, File_.size in *.
  simpl in *.
  destruct (Handler_read_one h heap Hu Hpos)
    as (b & n & h' & Hread & Hb & Ht' & Hu1 & Ht1 & Hs1 & Hb1).
  destruct (Handler_read_one (Handler.seek h' (-1) ios_cur) heap Hu1
              ltac:(rewrite Ht1, Hs1; exact Hpos))
    as (b2 & n2 & h2 & Hread2 & Hb2 & Ht2 & _).
  rewrite Hb1, Hb in Hb2. injection Hb2 as <-.
  exists b, (mkFile (Handler.seek h' (-1) ios_cur)), (mkFile h2).
  split; [exact Hb|].
  unfold File_.peek, File_.get. simpl. rewrite Hread. simpl.
  split; [reflexivity|]. split; [exact Ht1|].
  rewrite Hread2. simpl. split; [reflexivity|].
  rewrite Ht2, Ht1. reflexivity.
Qed.

Lemma peek_then_get_inside_file_witness :
  let f := File_.seek (Fixture.file_over (bytes_of_string "ab")) 1 ios_beg in
  let heap := Fixture.memory_with (bytes_of_string "ab") 0 in
  usable (handler f) heap = true
  /\ 0 <= File_.tell f < File_.size f
  /\ exists b f1 f2,
      byte_here (handler f) heap = Some b
      /\ File_.peek f heap = Ok (Some b, f1)
      /\ File_.tell f1 = File_.tell f
      /\ File_.get f1 heap = Ok (Some b, f2)
      /\ File_.tell f2 = File_.tell f + 1.
Proof.
  intros f heap.
  assert (Hu : usable (handler f) heap = true) by reflexivity.
  assert (Hpos : 0 <= File_.tell f < File_.size f).
  { unfold File_.tell, File_.size. simpl. unfold MemFile.tell, MemFile.size_.
    simpl. lia. }
  split; [exact Hu | split; [exact Hpos |]].
  exact (peek_then_get_inside_file f heap Hu Hpos).
Defined.

(** * Further properties *)

(** ** FileSystem: construction and precedence *)

Lemma handlers_addHandler_fold (roots : list Path) : forall fs : FileSystem Machine,
  handlers (fold_left (fun fs path => addHandler fs (RegularFileSystem_open path))
                      roots fs)
  = handlers fs ++ map RegularFileSystem_open roots.
Proof.
  induction roots as [|root roots IH]; intros fs; simpl.
  - now rewrite app_nil_r.
  - rewrite IH. simpl. now rewrite <- app_assoc.
Qed.

(** X1. A FileSystem built from a list of roots serves a path from the
    first root of the list under which the file exists, as a RegularFile
    freshly constructed on that file; it throws the not-found exception
    exactly when no root has the file.  The machine is left as it was.
    The one-root constructor is the one-element case. *)
Theorem FileSystem_of_paths_serves_first_root roots filepath w :
  open (FileSystem_of_paths roots) filepath w
  = match first_root_with w filepath roots with
    | Some contents =>
        (Return (mkFile (ARegularFile (RegularFile.new (ifstream.opened contents)))), w)
    | None => (Throw (EXCEPTION ("Failed opening file " ++ filepath)), w)
    end
  /\ forall root, FileSystem_of_path root = FileSystem_of_paths [root].
Proof.
  split; [|reflexivity].
  unfold open, FileSystem_of_paths. rewrite handlers_addHandler_fold.
  change (handlers (@FileSystem_new Machine) ++ map RegularFileSystem_open roots)
    with (map RegularFileSystem_open roots).
  induction roots as [|root roots IH]; cbn [map open_from first_root_with].
  - reflexivity.
  - unfold RegularFileSystem_open at 1.
    destruct (files w (root ++ "/" ++ filepath)%string); [reflexivity | exact IH].
Qed.

Section Precedence.

Variable World : Type.
Implicit Types (hs rest : list (FileSystemHandler World)) (w : World).

Lemma open_from_found_early hs rest filepath w f w' :
  open_from hs filepath w = (Return f, w') ->
  open_from (hs ++ rest) filepath w = (Return f, w').
Proof.
  revert w. induction hs as [|h hs IH]; intros w; simpl.
  - discriminate.
  - destruct (h filepath w) as [[[file|]|e] w1]; auto.
Qed.

Lemma passed_over_all_absent hs filepath w w1 :
  passed_over hs filepath w = Some w1 <-> all_absent filepath hs w w1.
Proof.
  split.
  - revert w. induction hs as [|h hs IH]; intros w; cbn [passed_over].
    + intros [= <-]. constructor.
    + destruct (h filepath w) as [[[file|]|e] w0] eqn:Hh; try discriminate.
      intros Hrest. econstructor; [exact Hh | now apply IH].
  - induction 1 as [|h hs w w0 w1 Hh _ IH]; cbn [passed_over].
    + reflexivity.
    + now rewrite Hh.
Qed.

Lemma open_from_stopped hs rest filepath w :
  passed_over hs filepath w = None ->
  open_from (hs ++ rest) filepath w = open_from hs filepath w.
Proof.
  revert w. induction hs as [|h hs IH]; intros w; cbn [passed_over app open_from].
  - discriminate.
  - destruct (h filepath w) as [[[file|]|e] w0]; auto.
Qed.

(** X2. A handler added to a FileSystem has the lowest precedence.
    [open] on the extended FileSystem asks the new handler exactly when
    every handler registered before it returned null, in the world the
    last of them left; in every other case (one of them returned a file
    or threw) the outcome and the world are those of the FileSystem
    before the addition.  In particular a path that resolved before
    resolves to the same File. *)
Theorem addHandler_has_lowest_precedence (fs : FileSystem World)
    (h : FileSystemHandler World) filepath w :
  open (addHandler fs h) filepath w
  = match passed_over (handlers fs) filepath w with
    | Some w1 => open (mkFileSystem [h]) filepath w1
    | None => open fs filepath w
    end
  /\ (forall w1, passed_over (handlers fs) filepath w = Some w1
                 <-> all_absent filepath (handlers fs) w w1)
  /\ (forall f w', open fs filepath w = (Return f, w') ->
                   open (addHandler fs h) filepath w = (Return f, w')).
Proof.
  unfold open, addHandler. cbn [handlers].
  split; [|split].
  - destruct (passed_over (handlers fs) filepath w) as [w1|] eqn:Hp.
    + apply passed_over_all_absent in Hp.
      exact (open_from_skips _ _ _ _ _ [h] Hp).
    + now apply open_from_stopped.
  - intros w1. apply passed_over_all_absent.
  - intros f w' Hopen. now apply open_from_found_early.
Qed.

End Precedence.

Lemma addHandler_has_lowest_precedence_witness :
  (* no handler at all: the added one decides *)
  open (addHandler FileSystem_new Fixture.fallback) "a.txt"%string []
  = (Return (mkFile Fixture.file_two), ["fallback"]%string)
  (* both earlier handlers return null: the added one is asked after them *)
  /\ open (addHandler (register FileSystem_new [Fixture.loose; Fixture.spare])
                      Fixture.fallback) "a.txt"%string []
     = (Return (mkFile Fixture.file_two), ["loose"; "spare"; "fallback"]%string)
  (* an earlier handler has the file: the added one is not asked *)
  /\ open (addHandler (register FileSystem_new [Fixture.loose; Fixture.bundle])
                      Fixture.fallback) "a.txt"%string []
     = (Return (mkFile Fixture.file_one), ["loose"; "bundle"]%string).
Proof.
  split; [|split].
  - exact (proj1 (addHandler_has_lowest_precedence (list string)
                    FileSystem_new Fixture.fallback "a.txt"%string [])).
  - exact (proj1 (addHandler_has_lowest_precedence (list string)
                    (register FileSystem_new [Fixture.loose; Fixture.spare])
                    Fixture.fallback "a.txt"%string [])).
  - exact (proj2 (proj2 (addHandler_has_lowest_precedence (list string)
                    (register FileSystem_new [Fixture.loose; Fixture.bundle])
                    Fixture.fallback "a.txt"%string []))
             (mkFile Fixture.file_one) ["loose"; "bundle"]%string eq_refl).
Defined.

Lemma RegularFileSystem_open_returns_normally root filepath :
  returns_normally filepath (RegularFileSystem_open root).
Proof.
  intros w. unfold RegularFileSystem_open.
  destruct (files w (root ++ "/" ++ filepath)%string); eexists; reflexivity.
Qed.

Lemma ZipFileSystem_open_returns_normally zip_file filepath :
  returns_normally filepath (ZipFileSystem_open false zip_file).
Proof.
  intros w. unfold ZipFileSystem_open.
  destruct (archives w filepath) as [z|]; [|eexists; reflexivity].
  destruct (libzip.zip_fopen z filepath); [|eexists; reflexivity].
  destruct (new_array w (libzip.zip_stat_size z filepath)).
  eexists; reflexivity.
Qed.

(** X3. In a build with zip support neither handler class of the
    repository throws from [open].  So a FileSystem that holds only such
    handlers raises no exception but the not-found one, and it raises
    that one only after each handler returned null. *)
Theorem repository_handlers_raise_only_not_found
    (fs : FileSystem Machine) filepath w e w' :
  Forall repository_handler (handlers fs) ->
  open fs filepath w = (Throw e, w') ->
  e = EXCEPTION ("Failed opening file " ++ filepath)
  /\ all_absent filepath (handlers fs) w w'.
Proof.
  intros Hrepo Hopen.
  assert (Hn : Forall (returns_normally filepath) (handlers fs)).
  { eapply Forall_impl; [|exact Hrepo].
    intros h [[root ->]|[zip_file ->]].
    - apply RegularFileSystem_open_returns_normally.
    - apply ZipFileSystem_open_returns_normally. }
  destruct (open_from_throws _ _ _ _ _ _ Hn Hopen) as [Habs He].
  split; assumption.
Qed.

Lemma repository_handlers_raise_only_not_found_witness :
  let fs := register FileSystem_new
              [RegularFileSystem_open "base"%string;
               ZipFileSystem_open false "assets.zip"%string] in
  Forall repository_handler (handlers fs)
  /\ open fs "b.txt"%string Fixture.two_roots
     = (Throw (EXCEPTION "Failed opening file b.txt"), Fixture.two_roots)
  /\ EXCEPTION "Failed opening file b.txt"
     = EXCEPTION ("Failed opening file " ++ "b.txt")
  /\ all_absent "b.txt"%string (handlers fs) Fixture.two_roots Fixture.two_roots.
Proof.
  intros fs.
  assert (Hrepo : Forall repository_handler (handlers fs)).
  { apply Forall_cons; [left; eexists; reflexivity |].
    apply Forall_cons; [right; eexists; reflexivity | apply Forall_nil]. }
  assert (Hopen : open fs "b.txt"%string Fixture.two_roots
                  = (Throw (EXCEPTION "Failed opening file b.txt"), Fixture.two_roots))
    by reflexivity.
  split; [exact Hrepo | split; [exact Hopen |]].
  exact (repository_handlers_raise_only_not_found fs "b.txt"%string
           Fixture.two_roots _ _ Hrepo Hopen).
Defined.

(** ** Memory: blocks placed, stored and loaded *)

Lemma load_bytes_ext m1 m2 n : forall a,
  (forall i, 0 <= i < Z.of_nat n -> m1 (a + i) = m2 (a + i)) ->
  load_bytes m1 a n = load_bytes m2 a n.
Proof.
  induction n as [|n IH]; intros a Hsame; [reflexivity|].
  cbn [load_bytes]. unfold load.
  assert (H0 : m1 a = m2 a).
  { specialize (Hsame 0). rewrite Z.add_0_r in Hsame. apply Hsame. lia. }
  rewrite H0.
  rewrite (IH (a + 1)); [reflexivity|].
  intros i Hi. replace (a + 1 + i) with (a + (1 + i)) by lia. apply Hsame. lia.
Qed.

Lemma place_outside m bs : forall a x,
  x < a \/ a + Z.of_nat (List.length bs) <= x ->
  place m a bs x = m x.
Proof.
  induction bs as [|b bs IH]; intros a x Hx; [reflexivity|].
  cbn [place]. cbn [List.length] in Hx.
  destruct (Z.eqb_spec x a); [lia|]. apply IH. lia.
Qed.

Lemma load_bytes_place m bs : forall a,
  load_bytes (place m a bs) a (List.length bs) = Ok bs.
Proof.
  induction bs as [|b bs IH]; intros a; [reflexivity|].
  cbn [List.length load_bytes]. unfold load. cbn [place].
  rewrite Z.eqb_refl. cbn [bind].
  rewrite (load_bytes_ext _ (place m (a + 1) bs)).
  - rewrite IH. reflexivity.
  - intros i Hi. destruct (Z.eqb_spec (a + 1 + i) a); [lia | reflexivity].
Qed.

Lemma store_outside m a b m' x :
  store m a b = Ok m' -> x <> a -> m' x = m x.
Proof.
  unfold store. destruct (m a); [|discriminate].
  intros [= <-] Hx. destruct (Z.eqb_spec x a); [contradiction | reflexivity].
Qed.

Lemma store_at m a b m' : store m a b = Ok m' -> m' a = Some b.
Proof.
  unfold store. destruct (m a); [|discriminate].
  intros [= <-]. now rewrite Z.eqb_refl.
Qed.

Lemma store_bytes_outside bs : forall m a m' x,
  store_bytes m a bs = Ok m' ->
  x < a \/ a + Z.of_nat (List.length bs) <= x ->
  m' x = m x.
Proof.
  induction bs as [|b bs IH]; intros m a m' x; cbn [store_bytes List.length].
  - now intros [= <-].
  - destruct (store m a b) as [m1|] eqn:Es; cbn [bind]; [|discriminate].
    intros Hs Hx. rewrite (IH _ _ _ x Hs) by lia.
    apply (store_outside _ _ _ _ _ Es). lia.
Qed.

(** What was stored is what is loaded back. *)
Lemma store_bytes_load bs : forall m a m',
  store_bytes m a bs = Ok m' ->
  load_bytes m' a (List.length bs) = Ok bs.
Proof.
  induction bs as [|b bs IH]; intros m a m'; cbn [store_bytes List.length load_bytes].
  - reflexivity.
  - destruct (store m a b) as [m1|] eqn:Es; cbn [bind]; [|discriminate].
    intros Hs. unfold load.
    rewrite (store_bytes_outside _ _ _ _ a Hs) by lia.
    rewrite (store_at _ _ _ _ Es). cbn [bind].
    rewrite (IH _ _ _ Hs). reflexivity.
Qed.

Lemma store_bytes_app xs : forall ys m a,
  store_bytes m a (xs ++ ys)
  = (m' <- store_bytes m a xs ;; store_bytes m' (a + Z.of_nat (List.length xs)) ys).
Proof.
  induction xs as [|x xs IH]; intros ys m a; cbn [app store_bytes List.length bind].
  - now rewrite Z.add_0_r.
  - destruct (store m a x) as [m1|]; cbn [bind]; [|reflexivity].
    rewrite IH. replace (a + 1 + Z.of_nat (List.length xs))
      with (a + Z.of_nat (S (List.length xs))) by lia.
    reflexivity.
Qed.

(** A block that can be loaded can be stored to. *)
Lemma store_bytes_mapped bs : forall m a,
  is_Ok (load_bytes m a (List.length bs)) = true ->
  exists m', store_bytes m a bs = Ok m'.
Proof.
  induction bs as [|b bs IH]; intros m a; cbn [store_bytes List.length load_bytes].
  - eauto.
  - unfold load, store. destruct (m a) as [b0|] eqn:Ea; cbn [bind]; [|discriminate].
    intros Hok. apply IH.
    rewrite (load_bytes_ext _ m).
    + destruct (load_bytes m (a + 1) (List.length bs)); [reflexivity | discriminate].
    + intros i Hi. destruct (Z.eqb_spec (a + 1 + i) a); [lia | reflexivity].
Qed.

(** ** RegularFileSystem and RegularFile: a file just opened *)

Lemma RegularFile_new_opened bs :
  Z.of_nat (List.length bs) < 2 ^ 63 ->
  RegularFile.new (ifstream.opened bs)
  = RegularFile.mk (ifstream.mk bs 0 false false 0) (Z.of_nat (List.length bs)).
Proof.
  intros Hlen. unfold RegularFile.new, ifstream.opened, ifstream.seekg,
    ifstream.tellg, ifstream.good.
  cbn [ifstream.failbit ifstream.bytes ifstream.gpos ifstream.eofbit
       ifstream.gcount_ negb andb].
  destruct (Z.ltb_spec (Z.of_nat (List.length bs) + 0) 0); [lia|].
  cbn [ifstream.failbit ifstream.bytes ifstream.gpos ifstream.eofbit
       ifstream.gcount_ negb andb].
  change (0 <? 0) with false. cbv iota.
  rewrite to_size_t_small by (unfold SIZE_MAX1; lia).
  now rewrite Z.add_0_r.
Qed.

(** X4. When the file exists under the root, [RegularFileSystem::open]
    returns a RegularFile at position 0 whose size is the length of the
    file and whose bytes are those of the file, ready for use; [eof] on
    it holds exactly when the file is empty.  The machine is left as it
    was. *)
Theorem RegularFileSystem_open_existing_file root filepath w bs :
  files w (root ++ "/" ++ filepath)%string = Some bs ->
  Z.of_nat (List.length bs) < 2 ^ 63 ->
  exists h,
    RegularFileSystem_open root filepath w = (Return (Some h), w)
    /\ Handler.tell h = 0
    /\ Handler.size h = Z.of_nat (List.length bs)
    /\ (forall heap, usable h heap = true /\ Handler_contents h heap = Ok bs)
    /\ File_.eof (mkFile h) = (Z.of_nat (List.length bs) =? 0).
Proof.
  intros Hfile Hlen. unfold RegularFileSystem_open. rewrite Hfile.
  rewrite (RegularFile_new_opened _ Hlen).
  eexists. split; [reflexivity|].
  split; [reflexivity|]. split; [reflexivity|]. split.
  - intros heap. split; [|reflexivity].
    cbn. rewrite Z.eqb_refl. cbn. now apply Z.ltb_lt.
  - unfold File_.eof. cbn. now destruct (Z.of_nat (List.length bs)).
Qed.

Lemma RegularFileSystem_open_existing_file_witness :
  files Fixture.two_roots ("base" ++ "/" ++ "a.txt")%string = Some (bytes_of_string "old")
  /\ Z.of_nat (List.length (bytes_of_string "old")) < 2 ^ 63
  /\ exists h,
      RegularFileSystem_open "base"%string "a.txt"%string Fixture.two_roots
      = (Return (Some h), Fixture.two_roots)
      /\ Handler.tell h = 0
      /\ Handler.size h = Z.of_nat (List.length (bytes_of_string "old"))
      /\ (forall heap, usable h heap = true
                       /\ Handler_contents h heap = Ok (bytes_of_string "old"))
      /\ File_.eof (mkFile h) = (Z.of_nat (List.length (bytes_of_string "old")) =? 0).
Proof.
  assert (Hfile : files Fixture.two_roots ("base" ++ "/" ++ "a.txt")%string
                  = Some (bytes_of_string "old")) by reflexivity.
  assert (Hlen : Z.of_nat (List.length (bytes_of_string "old")) < 2 ^ 63)
    by (vm_compute; reflexivity).
  split; [exact Hfile | split; [exact Hlen |]].
  exact (RegularFileSystem_open_existing_file "base"%string "a.txt"%string Fixture.two_roots
           (bytes_of_string "old") Hfile Hlen).
Defined.

(** ** ZipFileSystem: what a successful open hands out *)

(** X5. In a build with zip support [ZipFileSystem::open] returns a
    file exactly when the entry name is itself the path of an archive
    that holds an entry of that name.  It then decodes the whole entry
    into a fresh array at the allocator's next address, which the
    MemFile returned owns ([data]) with the entry's length as size,
    while [beg] and [pointer] of that MemFile are null.  In every other
    case it returns null and leaves the machine as it was. *)
Theorem ZipFileSystem_open_outcome zip_file filepath w :
  match archives w filepath with
  | Some z =>
      match libzip.lookup z filepath with
      | Some bs =>
          exists w',
            ZipFileSystem_open false zip_file filepath w
            = (Return (Some (AMemFile
                 (MemFile.mk_impl (brk w) 0 0 (Z.of_nat (List.length bs))))), w')
            /\ load_bytes (heap w') (brk w) (List.length bs) = Ok bs
            /\ brk w + Z.of_nat (List.length bs) <= brk w'
            /\ (forall x, x < brk w \/ brk w + Z.of_nat (List.length bs) <= x ->
                          heap w' x = heap w x)
      | None => ZipFileSystem_open false zip_file filepath w = (Return None, w)
      end
  | None => ZipFileSystem_open false zip_file filepath w = (Return None, w)
  end.
Proof.
  unfold ZipFileSystem_open, libzip.zip_fopen, libzip.zip_stat_size.
  destruct (archives w filepath) as [z|]; [|reflexivity].
  destruct (libzip.lookup z filepath) as [bs|]; [|reflexivity].
  unfold new_array, fill, libzip.zip_fread, MemFile.new_owning, MemFile.impl_owning.
  cbn [unique_ptr_move unique_ptr_get heap brk files archives].
  rewrite Nat2Z.id, firstn_all.
  eexists. split; [reflexivity|]. cbn [heap brk]. split; [|split].
  - apply load_bytes_place.
  - lia.
  - intros x Hx. rewrite place_outside by exact Hx.
    apply place_outside. rewrite repeat_length. exact Hx.
Qed.

(** ** Byte sources: what a read copies and returns *)

Ltac positions :=
  cbn;
  unfold MemFile.tell, MemFile.size_, RegularFile.tell, RegularFile.size,
    ifstream.tellg, ifstream.good in *;
  cbn; try lia.

Lemma serves_size h heap cs :
  serves h heap cs -> Handler.size h = Z.of_nat (List.length cs).
Proof.
  intros [Hu Hcs]. destruct h as [my|r].
  - destruct (usable_MemFile _ _ Hu) as (Hsize & _).
    cbn in Hcs. unfold MemFile_contents in Hcs.
    apply load_bytes_length in Hcs. cbn. unfold MemFile.size_. lia.
  - destruct (usable_RegularFile _ _ Hu) as (_ & _ & Hsz & _).
    cbn in Hcs. injection Hcs as <-. exact Hsz.
Qed.

(** A read that is [within] the file copies the next
    [min (size - position) n] bytes of the file and moves the position
    by that count.  A RegularFile returns the count, a MemFile the count
    divided by the size. *)
Lemma Handler_read_within h heap cs n :
  serves h heap cs -> in_bounds h -> within h (Read n) = true ->
  exists h',
    Handler.read h heap n
    = Ok (firstn (Z.to_nat (Z.min (Handler.size h - Handler.tell h) n))
                 (skipn (Z.to_nat (Handler.tell h)) cs),
          match h with
          | AMemFile _ => Z.min (Handler.size h - Handler.tell h) n / Handler.size h
          | ARegularFile _ => Z.min (Handler.size h - Handler.tell h) n
          end, h')
    /\ Handler.tell h' = Handler.tell h + Z.min (Handler.size h - Handler.tell h) n
    /\ Handler.size h' = Handler.size h
    /\ (forall heap2 cs2, serves h heap2 cs2 -> serves h' heap2 cs2)
    /\ (forall a m, apart h a m -> apart h' a m).
Proof.
  intros [Hu Hcs] Hb Hw. unfold in_bounds in Hb. destruct h as [my|rf].
  - destruct (usable_MemFile _ _ Hu) as (Hsize & _).
    cbn in Hcs, Hb, Hw |- *. unfold MemFile.size_ in *. unbool.
    rewrite (MemFile_read_spec _ _ _ _ Hcs Hsize Hb) by assumption.
    cbn. eexists. split; [reflexivity|].
    split; [positions|].
    split; [reflexivity|]. split; [|auto].
    intros heap2 cs2 Hs. exact Hs.
  - destruct (usable_RegularFile _ _ Hu) as (He & Hf & Hsz & Hmax & Ht).
    cbn in Hcs, Hb, Hw |- *. rewrite Ht in Hb, Hw |- *.
    unfold RegularFile.size in *. injection Hcs as <-.
    destruct rf as [s sz]. cbn in He, Hf, Hsz, Hmax, Hb, Hw |- *. unbool.
    unfold RegularFile.read. cbn.
    rewrite to_streamsize_small by lia.
    rewrite ifstream_read_exact by (try assumption; lia).
    cbn. rewrite to_size_t_small by (unfold SIZE_MAX1; lia).
    rewrite Z.min_r by lia.
    eexists. split; [reflexivity|].
    split; [positions|].
    split; [reflexivity|]. split; [|auto].
    intros heap2 cs2 [Hu2 Hcs2]. split; [|exact Hcs2].
    cbn. apply andb_true_iff. split; [now apply Z.eqb_eq | now apply Z.ltb_lt].
Qed.

(** X6. What a caller of [MemFile::read] gets back inside the file: 1
    when the call copied the whole file (position 0 and a count of at
    least the size), 0 in every other case, whatever number of bytes was
    copied. *)
Theorem MemFile_read_returns_one_only_for_whole_file my heap n :
  usable (AMemFile my) heap = true ->
  0 <= MemFile.tell my <= MemFile.size my ->
  0 <= n ->
  exists copied my',
    MemFile.read my heap n
    = Ok (copied,
          if (MemFile.tell my =? 0) && (MemFile.size my <=? n) then 1 else 0,
          my')
    /\ Z.of_nat (List.length copied) = Z.min (MemFile.size my - MemFile.tell my) n
    /\ MemFile.tell my' = MemFile.tell my + Z.min (MemFile.size my - MemFile.tell my) n.
Proof.
  intros Hu Hpos Hn.
  destruct (usable_MemFile _ _ Hu) as (Hsize & bs & Hbs).
  rewrite (MemFile_read_spec _ _ _ _ Hbs Hsize Hpos Hn). cbv zeta.
  pose proof (load_bytes_length _ _ _ _ Hbs) as Hlen.
  set (k := Z.min (MemFile.size my - MemFile.tell my) n).
  assert (Hk : 0 <= k <= MemFile.size my) by (unfold k; lia).
  eexists. eexists. split; [|split].
  - f_equal. f_equal. f_equal.
    destruct (Z.eqb_spec (MemFile.tell my) 0) as [Hp|Hp];
      destruct (Z.leb_spec (MemFile.size my) n) as [Hle|Hle]; cbn [andb].
    + replace k with (MemFile.size my) by (unfold k; lia).
      apply Z_div_same_full. lia.
    + apply Z.div_small. unfold k. lia.
    + apply Z.div_small. unfold k. lia.
    + apply Z.div_small. unfold k. lia.
  - rewrite length_firstn, length_skipn. lia.
  - unfold MemFile.tell. cbn. fold k. lia.
Qed.

Lemma MemFile_read_returns_one_only_for_whole_file_witness :
  let my := MemFile.seek (MemFile.new_borrowing 4096 4) 1 ios_beg in
  let heap := place no_mem 4096 (bytes_of_string "ABCD") in
  usable (AMemFile my) heap = true
  /\ 0 <= MemFile.tell my <= MemFile.size my
  /\ 0 <= 3
  /\ exists copied my',
      MemFile.read my heap 3
      = Ok (copied,
            if (MemFile.tell my =? 0) && (MemFile.size my <=? 3) then 1 else 0,
            my')
      /\ Z.of_nat (List.length copied) = Z.min (MemFile.size my - MemFile.tell my) 3
      /\ MemFile.tell my' = MemFile.tell my + Z.min (MemFile.size my - MemFile.tell my) 3.
Proof.
  intros my heap.
  assert (Hu : usable (AMemFile my) heap = true) by reflexivity.
  assert (Hpos : 0 <= MemFile.tell my <= MemFile.size my) by (cbn; lia).
  assert (Hn : 0 <= 3) by lia.
  split; [exact Hu | split; [exact Hpos | split; [exact Hn |]]].
  exact (MemFile_read_returns_one_only_for_whole_file my heap 3 Hu Hpos Hn).
Defined.

(** X7. A MemFile of size 0 cannot be read: every [read], whatever the
    count and the memory, ends in a crash (at the latest in the division
    by the size), and so do [File::get] and [File::read_all] on a File
    over it. *)
Theorem empty_MemFile_read_crashes my heap n :
  MemFile.size my = 0 ->
  is_Ok (MemFile.read my heap n) = false
  /\ is_Ok (File_.get (mkFile (AMemFile my)) heap) = false
  /\ is_Ok (File_.read_all (mkFile (AMemFile my)) heap) = false.
Proof.
  intros Hsize.
  assert (Hread : forall m, is_Ok (MemFile.read my heap m) = false).
  { intros m. unfold MemFile.read. rewrite Hsize.
    destruct (load_bytes heap (MemFile.pointer my) _); reflexivity. }
  split; [apply Hread|].
  unfold File_.get, File_.read_all. cbn [handler Handler.read Handler.size].
  split.
  - specialize (Hread 1). destruct (MemFile.read my heap 1); [discriminate | reflexivity].
  - specialize (Hread (MemFile.size_ my)).
    destruct (MemFile.read my heap (MemFile.size_ my)); [discriminate | reflexivity].
Qed.

Lemma empty_MemFile_read_crashes_witness :
  let my := MemFile.new_borrowing 4096 0 in
  MemFile.size my = 0
  /\ is_Ok (MemFile.read my (place no_mem 4096 [7]) 1) = false
  /\ is_Ok (File_.get (mkFile (AMemFile my)) (place no_mem 4096 [7])) = false
  /\ is_Ok (File_.read_all (mkFile (AMemFile my)) (place no_mem 4096 [7])) = false.
Proof.
  intros my. split; [reflexivity|].
  exact (empty_MemFile_read_crashes my (place no_mem 4096 [7]) 1 eq_refl).
Defined.

(** X8. Reading 0 bytes from a MemFile of non-zero size is a no-op at
    every position, inside the file or not, and touches no memory: it
    copies nothing, returns 0 and leaves the MemFile as it was. *)
Theorem MemFile_read_zero_is_noop my heap :
  MemFile.size my <> 0 ->
  MemFile.read my heap 0 = Ok ([], 0, my).
Proof.
  intros Hsize. unfold MemFile.read.
  assert (Hrem : 0 <= to_size_t (MemFile.beg my + MemFile.size my - MemFile.pointer my)).
  { unfold to_size_t, SIZE_MAX1. apply Z.mod_pos_bound. lia. }
  rewrite Z.min_r by exact Hrem. cbn [Z.to_nat load_bytes bind].
  destruct (Z.eqb_spec (MemFile.size my) 0); [contradiction|].
  rewrite Z.add_0_r. destruct my; reflexivity.
Qed.

Lemma MemFile_read_zero_is_noop_witness :
  let my := MemFile.seek (MemFile.new_borrowing 4096 3) 100 ios_beg in
  MemFile.size my <> 0 /\ MemFile.read my no_mem 0 = Ok ([], 0, my).
Proof.
  intros my.
  assert (Hsize : MemFile.size my <> 0) by (cbn; lia).
  split; [exact Hsize | exact (MemFile_read_zero_is_noop my no_mem Hsize)].
Defined.

(** X9. A read of a MemFile whose position is past the end is not cut
    short: the count of remaining bytes wraps around as a [size_t], so
    the read copies all [n] bytes it was asked for from the memory
    behind the array and moves the position a further [n] bytes away
    (it crashes only where that memory is not mapped). *)
Theorem MemFile_read_past_end_is_unbounded my heap n :
  0 < MemFile.size my ->
  MemFile.size my < MemFile.tell my ->
  MemFile.tell my - MemFile.size my < SIZE_MAX1 ->
  0 <= n <= SIZE_MAX1 - (MemFile.tell my - MemFile.size my) ->
  MemFile.read my heap n
  = (copied <- load_bytes heap (MemFile.beg my + MemFile.tell my) (Z.to_nat n) ;;
     Ok (copied, n / MemFile.size my,
         MemFile.mk_impl (MemFile.data my) (MemFile.beg my)
                         (MemFile.pointer my + n) (MemFile.size my)))
  /\ MemFile.beg my + MemFile.size my < MemFile.beg my + MemFile.tell my.
Proof.
  intros Hsize Hpast Hwrap Hn. split; [|lia].
  unfold MemFile.read, MemFile.tell in *.
  assert (Hrem : to_size_t (MemFile.beg my + MemFile.size my - MemFile.pointer my)
                 = SIZE_MAX1 - (MemFile.pointer my - MemFile.beg my - MemFile.size my)).
  { unfold to_size_t.
    replace (MemFile.beg my + MemFile.size my - MemFile.pointer my)
      with (SIZE_MAX1 - (MemFile.pointer my - MemFile.beg my - MemFile.size my)
            + (-1) * SIZE_MAX1) by lia.
    rewrite Z.mod_add by (unfold SIZE_MAX1; lia).
    apply Z.mod_small. lia. }
  rewrite Hrem, Z.min_r by lia.
  replace (MemFile.beg my + (MemFile.pointer my - MemFile.beg my))
    with (MemFile.pointer my) by lia.
  destruct (Z.eqb_spec (MemFile.size my) 0); [lia | reflexivity].
Qed.

Lemma MemFile_read_past_end_is_unbounded_witness :
  let heap := place no_mem 4096 [1; 2; 3; 4; 5; 6; 7; 8] in
  let my := MemFile.seek (MemFile.new_borrowing 4096 3) 5 ios_beg in
  0 < MemFile.size my
  /\ MemFile.size my < MemFile.tell my
  /\ MemFile.tell my - MemFile.size my < SIZE_MAX1
  /\ 0 <= 2 <= SIZE_MAX1 - (MemFile.tell my - MemFile.size my)
  /\ MemFile.read my heap 2
     = (copied <- load_bytes heap (MemFile.beg my + MemFile.tell my) (Z.to_nat 2) ;;
        Ok (copied, 2 / MemFile.size my,
            MemFile.mk_impl (MemFile.data my) (MemFile.beg my)
                            (MemFile.pointer my + 2) (MemFile.size my)))
  /\ MemFile.beg my + MemFile.size my < MemFile.beg my + MemFile.tell my.
Proof.
  intros heap my.
  assert (H1 : 0 < MemFile.size my) by (cbn; lia).
  assert (H2 : MemFile.size my < MemFile.tell my) by (cbn; lia).
  assert (H3 : MemFile.tell my - MemFile.size my < SIZE_MAX1) by (vm_compute; reflexivity).
  assert (H4 : 0 <= 2 <= SIZE_MAX1 - (MemFile.tell my - MemFile.size my))
    by (split; vm_compute; discriminate).
  split; [exact H1 | split; [exact H2 | split; [exact H3 | split; [exact H4 |]]]].
  exact (MemFile_read_past_end_is_unbounded my heap 2 H1 H2 H3 H4).
Defined.

(** ** Positions: seek followed by tell *)

(** X10. On a usable handler of either kind, [tell] after a seek to a
    non-negative offset from the beginning answers that offset (whether
    or not it lies inside the file), [tell] after [seek(0, end)] answers
    [size()], [tell] after a relative seek that does not go below 0
    answers the old position plus the offset, and no seek changes
    [size()]. *)
Theorem tell_after_seek h heap a c :
  usable h heap = true ->
  0 <= a ->
  0 <= Handler.tell h + c ->
  Handler.tell (Handler.seek h a ios_beg) = a
  /\ Handler.tell (Handler.seek h 0 ios_end) = Handler.size h
  /\ Handler.tell (Handler.seek h c ios_cur) = Handler.tell h + c
  /\ forall offset origin, Handler.size (Handler.seek h offset origin) = Handler.size h.
Proof.
  intros Hu Ha Hc. destruct h as [my|rf].
  - repeat split; try (intros offset origin; destruct origin); positions.
  - destruct (usable_RegularFile _ _ Hu) as (He & Hf & Hsz & Hmax & Ht).
    cbn in Hc. rewrite Ht in Hc.
    destruct rf as [s sz]. cbn in He, Hf, Hsz, Hmax, Hc.
    cbn. unfold RegularFile.seek, RegularFile.tell, RegularFile.size,
      ifstream.seekg, ifstream.tellg, ifstream.good. cbn.
    rewrite Hf, He. cbn.
    destruct (Z.ltb_spec a 0); [lia|].
    destruct (Z.ltb_spec (Z.of_nat (List.length (ifstream.bytes s)) + 0) 0); [lia|].
    destruct (Z.ltb_spec (ifstream.gpos s + c) 0); [lia|].
    cbn. repeat split; lia.
Qed.

Lemma tell_after_seek_witness :
  let h := ARegularFile (RegularFile.new (ifstream.opened (bytes_of_string "abc"))) in
  usable h no_mem = true
  /\ 0 <= 7
  /\ 0 <= Handler.tell h + 2
  /\ Handler.tell (Handler.seek h 7 ios_beg) = 7
  /\ Handler.tell (Handler.seek h 0 ios_end) = Handler.size h
  /\ Handler.tell (Handler.seek h 2 ios_cur) = Handler.tell h + 2
  /\ forall offset origin, Handler.size (Handler.seek h offset origin) = Handler.size h.
Proof.
  intros h.
  assert (Hu : usable h no_mem = true) by reflexivity.
  assert (Ha : 0 <= 7) by lia.
  assert (Hc : 0 <= Handler.tell h + 2) by (vm_compute; discriminate).
  split; [exact Hu | split; [exact Ha | split; [exact Hc |]]].
  exact (tell_after_seek h no_mem 7 2 Hu Ha Hc).
Defined.

(** ** File::read and File::read_all *)

Lemma length_rest (cs : list byte) p k :
  0 <= p -> 0 <= k -> p + k <= Z.of_nat (List.length cs) ->
  List.length (firstn (Z.to_nat k) (skipn (Z.to_nat p) cs)) = Z.to_nat k.
Proof. intros Hp Hk Hle. rewrite length_firstn, length_skipn. lia. Qed.

(** X11. [File::read] with a request that is [within] the file and a
    destination array that is mapped: the next [min (size - position) n]
    bytes of the file end up in [buffer[0..)], no other byte of memory
    changes, the position moves by that count and the size stays.  Over
    a RegularFile the value returned is that count; over a MemFile it is
    the count divided by the size. *)
Theorem File_read_fills_buffer f heap cs buffer n :
  serves (handler f) heap cs ->
  in_bounds (handler f) ->
  within (handler f) (Read n) = true ->
  is_Ok (load_bytes heap buffer
           (Z.to_nat (Z.min (File_.size f - File_.tell f) n))) = true ->
  exists ret f' heap',
    File_.read f heap buffer n = Ok (ret, f', heap')
    /\ load_bytes heap' buffer (Z.to_nat (Z.min (File_.size f - File_.tell f) n))
       = Ok (firstn (Z.to_nat (Z.min (File_.size f - File_.tell f) n))
                    (skipn (Z.to_nat (File_.tell f)) cs))
    /\ (forall x, x < buffer \/ buffer + Z.min (File_.size f - File_.tell f) n <= x ->
                  heap' x = heap x)
    /\ File_.tell f' = File_.tell f + Z.min (File_.size f - File_.tell f) n
    /\ File_.size f' = File_.size f
    /\ ret = match handler f with
             | AMemFile _ => Z.min (File_.size f - File_.tell f) n / File_.size f
             | ARegularFile _ => Z.min (File_.size f - File_.tell f) n
             end.
Proof.
  intros Hs Hb Hw Hdst. destruct f as [h]. unfold File_.tell, File_.size, File_.read in *.
  cbn [handler] in *.
  pose proof (serves_size _ _ _ Hs) as Hlen.
  destruct (Handler_read_within _ _ _ _ Hs Hb Hw) as (h' & Hread & Ht & Hsz & _).
  rewrite Hread. cbn [bind].
  set (k := Z.min (Handler.size h - Handler.tell h) n) in *.
  set (copied := firstn (Z.to_nat k) (skipn (Z.to_nat (Handler.tell h)) cs)) in *.
  assert (Hn : 0 <= n).
  { destruct h; cbn in Hw; unbool; lia. }
  unfold in_bounds in Hb.
  assert (Hcopied : List.length copied = Z.to_nat k).
  { apply length_rest; unfold k; lia. }
  rewrite <- Hcopied in Hdst.
  destruct (store_bytes_mapped _ _ _ Hdst) as [heap' Hstore].
  rewrite Hstore. cbn [bind].
  exists (match h with
          | AMemFile _ => k / Handler.size h
          | ARegularFile _ => k
          end), (mkFile h'), heap'.
  split; [reflexivity|]. split; [|split; [|split; [|split]]].
  - rewrite <- Hcopied. exact (store_bytes_load _ _ _ _ Hstore).
  - intros x Hx. apply (store_bytes_outside _ _ _ _ x Hstore).
    rewrite Hcopied. unfold k in *. lia.
  - exact Ht.
  - exact Hsz.
  - reflexivity.
Qed.

Lemma File_read_fills_buffer_witness :
  let f := File_.seek (Fixture.file_over (bytes_of_string "abcdef")) 4 ios_beg in
  let heap := Fixture.memory_with (bytes_of_string "abcdef") 8 in
  let k := Z.min (File_.size f - File_.tell f) 5 in
  serves (handler f) heap (bytes_of_string "abcdef")
  /\ in_bounds (handler f)
  /\ within (handler f) (Read 5) = true
  /\ is_Ok (load_bytes heap Fixture.buffer (Z.to_nat k)) = true
  /\ exists ret f' heap',
      File_.read f heap Fixture.buffer 5 = Ok (ret, f', heap')
      /\ load_bytes heap' Fixture.buffer (Z.to_nat k)
         = Ok (firstn (Z.to_nat k) (skipn (Z.to_nat (File_.tell f)) (bytes_of_string "abcdef")))
      /\ (forall x, x < Fixture.buffer \/ Fixture.buffer + k <= x -> heap' x = heap x)
      /\ File_.tell f' = File_.tell f + k
      /\ File_.size f' = File_.size f
      /\ ret = match handler f with
               | AMemFile _ => k / File_.size f
               | ARegularFile _ => k
               end.
Proof.
  intros f heap k.
  assert (Hs : serves (handler f) heap (bytes_of_string "abcdef"))
    by (split; reflexivity).
  assert (Hb : in_bounds (handler f)) by (unfold in_bounds; positions).
  assert (Hw : within (handler f) (Read 5) = true) by reflexivity.
  assert (Hdst : is_Ok (load_bytes heap Fixture.buffer (Z.to_nat k)) = true)
    by reflexivity.
  split; [exact Hs | split; [exact Hb | split; [exact Hw | split; [exact Hdst |]]]].
  exact (File_read_fills_buffer f heap (bytes_of_string "abcdef") Fixture.buffer 5
           Hs Hb Hw Hdst).
Defined.

(** X12. [read_all] on a File at position 0 returns exactly the bytes
    of the file, and leaves the File at its end: [tell] answers
    [size()] and [eof] holds. *)
Theorem read_all_from_start_returns_file f heap cs :
  serves (handler f) heap cs ->
  File_.tell f = 0 ->
  exists f',
    File_.read_all f heap = Ok (cs, f')
    /\ File_.tell f' = File_.size f
    /\ File_.size f' = File_.size f
    /\ File_.eof f' = true.
Proof.
  intros Hs Hp. destruct f as [h]. unfold File_.tell, File_.size, File_.read_all, File_.eof in *.
  cbn [handler] in *.
  pose proof (serves_size _ _ _ Hs) as Hlen.
  assert (Hmax : 0 <= Handler.size h < SIZE_MAX1).
  { destruct Hs as [Hu _]. destruct h as [my|r].
    - destruct (usable_MemFile _ _ Hu) as (Hsize & _). cbn. unfold MemFile.size_. lia.
    - destruct (usable_RegularFile _ _ Hu) as (_ & _ & Hsz & Hlt & _).
      cbn. unfold RegularFile.size, SIZE_MAX1. lia. }
  assert (Hb : in_bounds h) by (unfold in_bounds; lia).
  assert (Hw : within h (Read (Handler.size h)) = true).
  { destruct h; cbn [within]; try rewrite Hp;
      apply andb_true_iff; split; try apply Z.leb_le; try apply Z.ltb_lt; lia. }
  destruct (Handler_read_within _ _ _ _ Hs Hb Hw) as (h' & Hread & Ht & Hsz & _).
  rewrite Hread. cbn [bind]. rewrite Hp in *.
  rewrite Z.sub_0_r, Z.min_id in *.
  change (Z.to_nat 0) with 0%nat. cbn [skipn].
  rewrite firstn_all2 by lia.
  replace (Z.to_nat (Handler.size h) - List.length cs)%nat with 0%nat by lia.
  cbn [repeat]. rewrite app_nil_r.
  exists (mkFile h'). cbn [handler].
  split; [reflexivity|]. split; [lia|]. split; [exact Hsz|].
  rewrite Ht, Hsz, Z.add_0_l, to_size_t_small by lia. apply Z.eqb_refl.
Qed.

Lemma read_all_from_start_returns_file_witness :
  let f := Fixture.stream_over Fixture.two_lines in
  serves (handler f) no_mem Fixture.two_lines
  /\ File_.tell f = 0
  /\ exists f',
      File_.read_all f no_mem = Ok (Fixture.two_lines, f')
      /\ File_.tell f' = File_.size f
      /\ File_.size f' = File_.size f
      /\ File_.eof f' = true.
Proof.
  intros f.
  assert (Hs : serves (handler f) no_mem Fixture.two_lines) by (split; reflexivity).
  assert (Hp : File_.tell f = 0) by reflexivity.
  split; [exact Hs | split; [exact Hp |]].
  exact (read_all_from_start_returns_file f no_mem Fixture.two_lines Hs Hp).
Defined.

(** X13. [read_all] always returns [size()] bytes: from a position [p]
    inside the file it returns the bytes from [p] to the end of the
    file followed by [p] zero bytes. *)
Theorem read_all_pads_with_zeros f heap cs :
  serves (handler f) heap cs ->
  in_bounds (handler f) ->
  exists f',
    File_.read_all f heap
    = Ok (skipn (Z.to_nat (File_.tell f)) cs ++ repeat 0 (Z.to_nat (File_.tell f)), f')
    /\ Z.of_nat (List.length (skipn (Z.to_nat (File_.tell f)) cs
                              ++ repeat 0 (Z.to_nat (File_.tell f))))
       = File_.size f.
Proof.
  intros Hs Hb. destruct f as [h]. unfold File_.tell, File_.size, File_.read_all in *.
  cbn [handler] in *. unfold in_bounds in Hb.
  pose proof (serves_size _ _ _ Hs) as Hlen.
  assert (Hcopied : exists ret h',
             Handler.read h heap (Handler.size h)
             = Ok (firstn (Z.to_nat (Handler.size h)) (skipn (Z.to_nat (Handler.tell h)) cs),
                   ret, h')).
  { destruct h as [my|rf].
    - assert (Hw : within (AMemFile my) (Read (Handler.size (AMemFile my))) = true).
      { destruct Hs as [Hu _]. destruct (usable_MemFile _ _ Hu) as (Hsize & _).
        cbn. unfold MemFile.size_.
        apply andb_true_iff; split; [apply Z.leb_le | apply Z.ltb_lt]; lia. }
      destruct (Handler_read_within _ _ _ _ Hs Hb Hw) as (h' & Hread & _).
      rewrite Hread.
      replace (firstn (Z.to_nat (Z.min (Handler.size (AMemFile my)
                                        - Handler.tell (AMemFile my))
                                       (Handler.size (AMemFile my))))
                 (skipn (Z.to_nat (Handler.tell (AMemFile my))) cs))
        with (firstn (Z.to_nat (Handler.size (AMemFile my)))
                 (skipn (Z.to_nat (Handler.tell (AMemFile my))) cs)).
      + eauto.
      + rewrite !firstn_all2; [reflexivity | |]; rewrite length_skipn; lia.
    - destruct Hs as [Hu Hcs].
      destruct (usable_RegularFile _ _ Hu) as (He & Hf & Hsz & Hmax & Ht).
      cbn in Hcs. injection Hcs as <-.
      cbn [Handler.tell Handler.size] in *. rewrite Ht in *.
      unfold RegularFile.size in *.
      cbn [Handler.read]. unfold RegularFile.read.
      rewrite to_streamsize_small by lia.
      unfold ifstream.read, ifstream.good. rewrite He, Hf. cbn [negb andb].
      eauto. }
  destruct Hcopied as (ret & h' & Hread). rewrite Hread. cbn [bind].
  rewrite firstn_all2 by (rewrite length_skipn; lia).
  rewrite length_skipn.
  replace (Z.to_nat (Handler.size h) - (List.length cs - Z.to_nat (Handler.tell h)))%nat
    with (Z.to_nat (Handler.tell h)) by lia.
  exists (mkFile h'). split; [reflexivity|].
  rewrite length_app, length_skipn, repeat_length. lia.
Qed.

Lemma read_all_pads_with_zeros_witness :
  let f := File_.seek (Fixture.stream_over (bytes_of_string "abcdef")) 4 ios_beg in
  serves (handler f) no_mem (bytes_of_string "abcdef")
  /\ in_bounds (handler f)
  /\ exists f',
      File_.read_all f no_mem
      = Ok (skipn (Z.to_nat (File_.tell f)) (bytes_of_string "abcdef")
            ++ repeat 0 (Z.to_nat (File_.tell f)), f')
      /\ Z.of_nat (List.length (skipn (Z.to_nat (File_.tell f)) (bytes_of_string "abcdef")
                                ++ repeat 0 (Z.to_nat (File_.tell f))))
         = File_.size f.
Proof.
  intros f.
  assert (Hs : serves (handler f) no_mem (bytes_of_string "abcdef"))
    by (split; reflexivity).
  assert (Hb : in_bounds (handler f))
    by (unfold in_bounds; vm_compute; split; discriminate).
  split; [exact Hs | split; [exact Hb |]].
  exact (read_all_pads_with_zeros f no_mem (bytes_of_string "abcdef") Hs Hb).
Defined.

(** ** File::get *)

Lemma skipn_cons_nth (l : list byte) : forall p x t,
  skipn p l = x :: t -> nth_error l p = Some x /\ skipn (S p) l = t.
Proof.
  induction l as [|y l IH]; intros p x t.
  - destruct p; discriminate.
  - destruct p as [|p]; cbn [skipn nth_error].
    + intros [= -> ->]. split; reflexivity.
    + intros H. destruct (IH _ _ _ H) as [Hn Hs]. split; [exact Hn|].
      destruct l; [destruct p; discriminate | exact Hs].
Qed.

(** Reading one byte with a request that is [within] the file. *)
Lemma Handler_read_byte h heap cs :
  serves h heap cs -> in_bounds h -> within h (Read 1) = true ->
  exists ret h',
    Handler.read h heap 1
    = Ok (match nth_error cs (Z.to_nat (Handler.tell h)) with
          | Some b => [b]
          | None => []
          end, ret, h')
    /\ Handler.tell h'
       = Handler.tell h + (if Handler.tell h <? Handler.size h then 1 else 0)
    /\ Handler.size h' = Handler.size h
    /\ (forall heap2 cs2, serves h heap2 cs2 -> serves h' heap2 cs2)
    /\ (forall a m, apart h a m -> apart h' a m).
Proof.
  intros Hs Hb Hw.
  pose proof (serves_size _ _ _ Hs) as Hlen. unfold in_bounds in Hb.
  destruct (Handler_read_within _ _ _ _ Hs Hb Hw) as (h' & Hread & Ht & Hrest).
  rewrite Hread.
  destruct (Z.ltb_spec (Handler.tell h) (Handler.size h)) as [Hin|Hend].
  - rewrite Z.min_r in * by lia.
    destruct (firstn_one_skipn cs (Z.to_nat (Handler.tell h)) ltac:(lia))
      as (b & Hnth & Hfirst).
    change (Z.to_nat 1) with 1%nat. rewrite Hfirst, Hnth.
    eexists. exists h'.
    split; [reflexivity | split; [exact Ht | exact Hrest]].
  - rewrite Z.min_l in * by lia.
    replace (Handler.size h - Handler.tell h) with 0 in * by lia.
    change (Z.to_nat 0) with 0%nat. cbn [firstn].
    assert (Hnone : nth_error cs (Z.to_nat (Handler.tell h)) = None)
      by (apply nth_error_None; lia).
    rewrite Hnone.
    eexists. exists h'.
    split; [reflexivity | split; [exact Ht | exact Hrest]].
Qed.

(** X14. [File::get] with a one-byte request that is [within] the file
    returns the byte at the position and moves the position by one when
    the position is before the end; at the end of a MemFile it reads
    nothing, returns an indeterminate value and leaves the position
    where it was. *)
Theorem get_returns_byte_at_position f heap cs :
  serves (handler f) heap cs ->
  in_bounds (handler f) ->
  within (handler f) (Read 1) = true ->
  exists f',
    File_.get f heap = Ok (nth_error cs (Z.to_nat (File_.tell f)), f')
    /\ File_.tell f' = File_.tell f + (if File_.tell f <? File_.size f then 1 else 0)
    /\ File_.size f' = File_.size f.
Proof.
  intros Hs Hb Hw. destruct f as [h].
  unfold File_.get, File_.tell, File_.size. cbn [handler] in *.
  destruct (Handler_read_byte _ _ _ Hs Hb Hw) as (ret & h' & Hread & Ht & Hsz & _).
  rewrite Hread. cbn [bind]. exists (mkFile h'). cbn [handler].
  split; [|split; assumption].
  destruct (nth_error cs (Z.to_nat (Handler.tell h))); reflexivity.
Qed.

Lemma get_returns_byte_at_position_witness :
  let f := File_.seek (Fixture.file_over (bytes_of_string "ab")) 0 ios_end in
  let heap := Fixture.memory_with (bytes_of_string "ab") 0 in
  serves (handler f) heap (bytes_of_string "ab")
  /\ in_bounds (handler f)
  /\ within (handler f) (Read 1) = true
  /\ exists f',
      File_.get f heap = Ok (nth_error (bytes_of_string "ab") (Z.to_nat (File_.tell f)), f')
      /\ File_.tell f' = File_.tell f + (if File_.tell f <? File_.size f then 1 else 0)
      /\ File_.size f' = File_.size f.
Proof.
  intros f heap.
  assert (Hs : serves (handler f) heap (bytes_of_string "ab")) by (split; reflexivity).
  assert (Hb : in_bounds (handler f))
    by (unfold in_bounds; vm_compute; split; discriminate).
  assert (Hw : within (handler f) (Read 1) = true) by reflexivity.
  split; [exact Hs | split; [exact Hb | split; [exact Hw |]]].
  exact (get_returns_byte_at_position f heap (bytes_of_string "ab") Hs Hb Hw).
Defined.

(** ** File::read_line on data that does not run out *)

Lemma to_int_small x : - 2 ^ 31 <= x < 2 ^ 31 -> to_int x = x.
Proof. intros H. unfold to_int. rewrite Z.mod_small; lia. Qed.

Lemma last_cons_default {A} (l : list A) : forall x d, last (x :: l) d = last l x.
Proof.
  induction l as [|y l IH]; intros x d; [reflexivity|].
  change (last (x :: y :: l) d) with (last (y :: l) d).
  rewrite (IH y d), (IH y x). reflexivity.
Qed.

Lemma last_not_LF (l : list byte) : forall d,
  ~ In LF l -> d <> LF -> last l d <> LF.
Proof.
  induction l as [|y l IH]; intros d Hin Hd; [exact Hd|].
  rewrite last_cons_default. apply IH.
  - intros H. apply Hin. now right.
  - intros H. apply Hin. now left.
Qed.

Lemma apart_sub h a n a' n' :
  apart h a n -> a <= a' -> a' + n' <= a + n -> apart h a' n'.
Proof. destruct h; cbn; [lia | trivial]. Qed.

(** A store outside the array of a handler leaves the handler serving
    the same file. *)
Lemma serves_store h heap cs a b heap' :
  serves h heap cs -> apart h a 1 -> store heap a b = Ok heap' ->
  serves h heap' cs.
Proof.
  intros [Hu Hcs] Hapart Hstore. destruct h as [my|r]; [|split; assumption].
  destruct (usable_MemFile _ _ Hu) as (Hsize & _).
  cbn in Hcs, Hapart.
  assert (Hsame : MemFile_contents my heap' = MemFile_contents my heap).
  { unfold MemFile_contents. apply load_bytes_ext.
    intros i Hi. apply (store_outside _ _ _ _ _ Hstore). lia. }
  split; [|cbn; now rewrite Hsame].
  cbn in Hu |- *. now rewrite Hsame.
Qed.

Lemma read_line_loop_after_LF n h heap buffer chars_read :
  File_.read_line_loop n h heap buffer LF chars_read
  = Ok (h, heap, buffer, LF, chars_read).
Proof. destruct n; reflexivity. Qed.

(** The loop over a run of bytes without a line feed: it stores the
    bytes other than carriage returns, one after the other, and goes on
    with the iterations that remain. *)
Lemma read_line_loop_chunk cs : forall chunk rest k h heap buffer c chars_read heap1,
  serves h heap cs ->
  0 <= Handler.tell h ->
  skipn (Z.to_nat (Handler.tell h)) cs = chunk ++ rest ->
  ~ In LF chunk ->
  c <> LF ->
  apart h buffer (Z.of_nat (List.length (without_CR chunk))) ->
  store_bytes heap buffer (without_CR chunk) = Ok heap1 ->
  0 <= chars_read ->
  chars_read + Z.of_nat (List.length (without_CR chunk)) < 2 ^ 31 ->
  exists h',
    File_.read_line_loop (List.length chunk + k) h heap buffer c chars_read
    = File_.read_line_loop k h' heap1
        (buffer + Z.of_nat (List.length (without_CR chunk)))
        (last chunk c)
        (chars_read + Z.of_nat (List.length (without_CR chunk)))
    /\ Handler.tell h' = Handler.tell h + Z.of_nat (List.length chunk)
    /\ Handler.size h' = Handler.size h
    /\ serves h' heap1 cs
    /\ (forall a m, apart h a m -> apart h' a m).
Proof.
  induction chunk as [|x chunk IH];
    intros rest k h heap buffer c chars_read heap1 Hs Hp Hskip Hin Hc Hapart Hstore
           Hchars Hmax.
  - cbn in Hstore. injection Hstore as <-.
    exists h. cbn [List.length without_CR filter last plus].
    rewrite !Z.add_0_r. auto.
  - pose proof (serves_size _ _ _ Hs) as Hlen.
    cbn [app] in Hskip.
    destruct (skipn_cons_nth _ _ _ _ Hskip) as [Hnth Hnext].
    assert (Hlt : (Z.to_nat (Handler.tell h) < List.length cs)%nat)
      by (apply nth_error_Some; congruence).
    assert (Hb : in_bounds h) by (unfold in_bounds; lia).
    assert (Hw : within h (Read 1) = true).
    { destruct h; cbn [within]; apply andb_true_iff; split;
        try apply Z.leb_le; try apply Z.ltb_lt; unfold SIZE_MAX1; lia. }
    destruct (Handler_read_byte _ _ _ Hs Hb Hw)
      as (ret & h1 & Hread & Ht1 & Hsz1 & Hserves1 & Hapart1).
    rewrite Hnth in Hread.
    destruct (Z.ltb_spec (Handler.tell h) (Handler.size h)) as [_|Hge]; [|lia].
    assert (Hx : x <> LF) by (intros ->; apply Hin; now left).
    assert (Hin' : ~ In LF chunk) by (intros H; apply Hin; now right).
    assert (Hskip1 : skipn (Z.to_nat (Handler.tell h1)) cs = chunk ++ rest).
    { rewrite Ht1. replace (Z.to_nat (Handler.tell h + 1))
        with (S (Z.to_nat (Handler.tell h))) by lia. exact Hnext. }
    cbn [List.length plus File_.read_line_loop].
    destruct (Z.eqb_spec c LF) as [|_]; [contradiction|].
    rewrite Hread. cbn [bind].
    destruct (Z.eqb_spec x LF) as [|_]; [contradiction|].
    rewrite last_cons_default.
    unfold without_CR in *. cbn [filter] in *.
    destruct (Z.eqb_spec x CR) as [Hcr|Hcr]; cbn [negb andb] in *.
    + destruct (IH rest k h1 heap buffer x chars_read heap1
                  (Hserves1 _ _ Hs) ltac:(lia) Hskip1 Hin' Hx
                  (Hapart1 _ _ Hapart) Hstore Hchars Hmax)
        as (h' & Hloop & Ht & Hsz & Hs' & Hap').
      exists h'. rewrite Hloop.
      split; [reflexivity|]. split; [lia|]. split; [congruence|].
      split; [exact Hs' | auto].
    + cbn [store_bytes List.length] in *.
      destruct (store heap buffer x) as [heap0|] eqn:Es; cbn [bind] in *; [|discriminate].
      assert (Hs0 : serves h1 heap0 cs).
      { apply Hserves1. eapply serves_store; [exact Hs | | exact Es].
        apply (apart_sub _ _ _ _ _ Hapart); lia. }
      rewrite to_int_small by lia.
      destruct (IH rest k h1 heap0 (buffer + 1) x (chars_read + 1) heap1
                  Hs0 ltac:(lia) Hskip1 Hin' Hx
                  ltac:(apply Hapart1; apply (apart_sub _ _ _ _ _ Hapart); lia)
                  Hstore ltac:(lia) ltac:(lia))
        as (h' & Hloop & Ht & Hsz & Hs' & Hap').
      exists h'. rewrite Hloop.
      split; [f_equal; lia|]. split; [lia|]. split; [congruence|].
      split; [exact Hs' | auto].
Qed.

Lemma store_bytes_then xs y m a m2 :
  store_bytes m a (xs ++ [y]) = Ok m2 ->
  exists m1, store_bytes m a xs = Ok m1
             /\ store m1 (a + Z.of_nat (List.length xs)) y = Ok m2.
Proof.
  rewrite store_bytes_app.
  destruct (store_bytes m a xs) as [m1|]; cbn [bind store_bytes]; [|discriminate].
  intros H. exists m1. split; [reflexivity|].
  destruct (store m1 (a + Z.of_nat (List.length xs)) y); [exact H | discriminate].
Qed.

(** X15. [read_line] on a line that ends in a line feed within the
    first [count] bytes ahead: with [line] the bytes before the line
    feed, the call stores [line] without its carriage returns at
    [buffer[0..)], the NUL right after it, and nothing else; it returns
    the number of characters stored and leaves the position just behind
    the line feed. *)
Theorem read_line_stops_after_line_feed f heap cs buffer count line rest heap2 :
  serves (handler f) heap cs ->
  0 <= File_.tell f ->
  skipn (Z.to_nat (File_.tell f)) cs = line ++ LF :: rest ->
  ~ In LF line ->
  Z.of_nat (List.length line) < count ->
  apart (handler f) buffer (Z.of_nat (List.length (without_CR line))) ->
  store_bytes heap buffer (without_CR line ++ [0]) = Ok heap2 ->
  Z.of_nat (List.length (without_CR line)) < 2 ^ 31 ->
  exists f',
    File_.read_line f heap buffer count
    = Ok (Z.of_nat (List.length (without_CR line)), f', heap2)
    /\ File_.tell f' = File_.tell f + Z.of_nat (List.length line) + 1
    /\ File_.size f' = File_.size f.
Proof.
  intros Hs Hp Hskip Hin Hcount Hapart Hstore Hmax. destruct f as [h].
  unfold File_.tell, File_.size, File_.read_line in *. cbn [handler] in *.
  destruct (store_bytes_then _ _ _ _ _ Hstore) as (heap1 & Hline & Hnul).
  replace (Z.to_nat count)
    with (List.length line + S (Z.to_nat count - S (List.length line)))%nat by lia.
  destruct (read_line_loop_chunk cs line (LF :: rest)
              (S (Z.to_nat count - S (List.length line))) h heap buffer 0 0 heap1
              Hs Hp Hskip Hin ltac:(discriminate) Hapart Hline ltac:(lia) ltac:(lia))
    as (h1 & Hloop & Ht1 & Hsz1 & Hs1 & _).
  rewrite Hloop. clear Hloop.
  assert (Hlast : last line 0 <> LF) by (apply last_not_LF; [exact Hin | discriminate]).
  pose proof (serves_size _ _ _ Hs1) as Hlen.
  assert (Hskip1 : skipn (Z.to_nat (Handler.tell h1)) cs = LF :: rest).
  { rewrite Ht1, Z2Nat.inj_add, Nat2Z.id by lia.
    rewrite (Nat.add_comm _ (List.length line)), <- skipn_skipn, Hskip.
    rewrite skipn_app, skipn_all, Nat.sub_diag. reflexivity. }
  destruct (skipn_cons_nth _ _ _ _ Hskip1) as [Hnth _].
  assert (Hlt : (Z.to_nat (Handler.tell h1) < List.length cs)%nat)
    by (apply nth_error_Some; congruence).
  assert (Hb : in_bounds h1) by (unfold in_bounds; lia).
  assert (Hw : within h1 (Read 1) = true).
  { destruct h1; cbn [within]; apply andb_true_iff; split;
      try apply Z.leb_le; try apply Z.ltb_lt; unfold SIZE_MAX1; lia. }
  destruct (Handler_read_byte _ _ _ Hs1 Hb Hw) as (ret & h2 & Hread & Ht2 & Hsz2 & _).
  rewrite Hnth in Hread.
  destruct (Z.ltb_spec (Handler.tell h1) (Handler.size h1)) as [_|Hge]; [|lia].
  cbn [File_.read_line_loop].
  destruct (Z.eqb_spec (last line 0) LF) as [|_]; [contradiction|].
  rewrite Hread. cbn [bind].
  change (negb (LF =? CR) && negb (LF =? LF)) with false. cbv iota.
  rewrite read_line_loop_after_LF. cbn [bind].
  change (negb (LF =? LF)) with false. cbv iota.
  rewrite Z.add_0_l, Hnul. cbn [bind].
  rewrite to_size_t_small by (unfold SIZE_MAX1; lia).
  exists (mkFile h2). cbn [handler].
  split; [reflexivity|]. split; [lia | congruence].
Qed.

Lemma read_line_stops_after_line_feed_witness :
  let f := Fixture.file_over Fixture.two_lines in
  let heap := Fixture.memory_with Fixture.two_lines 20 in
  let line := bytes_of_string "abc" ++ [CR] in
  serves (handler f) heap Fixture.two_lines
  /\ 0 <= File_.tell f
  /\ skipn (Z.to_nat (File_.tell f)) Fixture.two_lines
     = line ++ LF :: bytes_of_string "def"
  /\ ~ In LF line
  /\ Z.of_nat (List.length line) < 16
  /\ apart (handler f) Fixture.buffer (Z.of_nat (List.length (without_CR line)))
  /\ Z.of_nat (List.length (without_CR line)) < 2 ^ 31
  /\ exists heap2,
      store_bytes heap Fixture.buffer (without_CR line ++ [0]) = Ok heap2
      /\ exists f',
          File_.read_line f heap Fixture.buffer 16
          = Ok (Z.of_nat (List.length (without_CR line)), f', heap2)
          /\ File_.tell f' = File_.tell f + Z.of_nat (List.length line) + 1
          /\ File_.size f' = File_.size f.
Proof.
  intros f heap line.
  assert (Hs : serves (handler f) heap Fixture.two_lines) by (split; reflexivity).
  assert (Hp : 0 <= File_.tell f) by (vm_compute; discriminate).
  assert (Hskip : skipn (Z.to_nat (File_.tell f)) Fixture.two_lines
                  = line ++ LF :: bytes_of_string "def") by reflexivity.
  assert (Hin : ~ In LF line).
  { vm_compute. intros [H|[H|[H|[H|[]]]]]; discriminate H. }
  assert (Hcount : Z.of_nat (List.length line) < 16) by (vm_compute; reflexivity).
  assert (Hapart : apart (handler f) Fixture.buffer
                     (Z.of_nat (List.length (without_CR line)))).
  { right. vm_compute. discriminate. }
  assert (Hmax : Z.of_nat (List.length (without_CR line)) < 2 ^ 31)
    by (vm_compute; reflexivity).
  destruct (store_bytes heap Fixture.buffer (without_CR line ++ [0]))
    as [heap3|] eqn:Hstore; [|vm_compute in Hstore; discriminate Hstore].
  split; [exact Hs | split; [exact Hp | split; [exact Hskip | split; [exact Hin |]]]].
  split; [exact Hcount | split; [exact Hapart | split; [exact Hmax |]]].
  exists heap3. split; [reflexivity|].
  exact (read_line_stops_after_line_feed f heap Fixture.two_lines Fixture.buffer 16
           line (bytes_of_string "def") heap3 Hs Hp Hskip Hin Hcount Hapart Hstore Hmax).
Defined.

(** X16. [read_line] when the next [count] bytes hold no line feed (the
    buffer-full exit, [count = 0] included): the call reads exactly
    [count] bytes, stores them without the carriage returns at
    [buffer[0..)], leaves the byte right after them as it was and puts
    the NUL one byte further; it returns the number of characters
    stored. *)
Theorem read_line_without_line_feed f heap cs buffer chunk rest heap1 heap2 :
  serves (handler f) heap cs ->
  0 <= File_.tell f ->
  skipn (Z.to_nat (File_.tell f)) cs = chunk ++ rest ->
  ~ In LF chunk ->
  apart (handler f) buffer (Z.of_nat (List.length (without_CR chunk))) ->
  store_bytes heap buffer (without_CR chunk) = Ok heap1 ->
  store heap1 (buffer + Z.of_nat (List.length (without_CR chunk)) + 1) 0 = Ok heap2 ->
  Z.of_nat (List.length (without_CR chunk)) < 2 ^ 31 ->
  exists f',
    File_.read_line f heap buffer (Z.of_nat (List.length chunk))
    = Ok (Z.of_nat (List.length (without_CR chunk)), f', heap2)
    /\ File_.tell f' = File_.tell f + Z.of_nat (List.length chunk)
    /\ heap2 (buffer + Z.of_nat (List.length (without_CR chunk)))
       = heap (buffer + Z.of_nat (List.length (without_CR chunk)))
    /\ heap2 (buffer + Z.of_nat (List.length (without_CR chunk)) + 1) = Some 0.
Proof.
  intros Hs Hp Hskip Hin Hapart Hline Hnul Hmax. destruct f as [h].
  unfold File_.tell, File_.size, File_.read_line in *. cbn [handler] in *.
  rewrite Nat2Z.id. rewrite <- (Nat.add_0_r (List.length chunk)).
  destruct (read_line_loop_chunk cs chunk rest 0%nat h heap buffer 0 0 heap1
              Hs Hp Hskip Hin ltac:(discriminate) Hapart Hline ltac:(lia) ltac:(lia))
    as (h1 & Hloop & Ht1 & _).
  rewrite Hloop. clear Hloop. cbn [File_.read_line_loop bind].
  assert (Hlast : last chunk 0 <> LF) by (apply last_not_LF; [exact Hin | discriminate]).
  destruct (Z.eqb_spec (last chunk 0) LF) as [|_]; [contradiction|].
  cbn [negb]. rewrite Z.add_0_l, Hnul. cbn [bind].
  rewrite to_size_t_small by (unfold SIZE_MAX1; lia).
  exists (mkFile h1). cbn [handler].
  split; [reflexivity|]. split; [rewrite ?Nat.add_0_r; lia|]. split.
  - rewrite (store_outside _ _ _ _ _ Hnul) by lia.
    apply (store_bytes_outside _ _ _ _ _ Hline). lia.
  - exact (store_at _ _ _ _ Hnul).
Qed.

Lemma read_line_without_line_feed_witness :
  let f := Fixture.file_over (bytes_of_string "abcdef") in
  let heap := Fixture.memory_with (bytes_of_string "abcdef") 6 in
  let chunk := bytes_of_string "abc" in
  let w := Z.of_nat (List.length (without_CR chunk)) in
  serves (handler f) heap (bytes_of_string "abcdef")
  /\ 0 <= File_.tell f
  /\ skipn (Z.to_nat (File_.tell f)) (bytes_of_string "abcdef")
     = chunk ++ bytes_of_string "def"
  /\ ~ In LF chunk
  /\ apart (handler f) Fixture.buffer w
  /\ w < 2 ^ 31
  /\ exists heap1 heap2,
      store_bytes heap Fixture.buffer (without_CR chunk) = Ok heap1
      /\ store heap1 (Fixture.buffer + w + 1) 0 = Ok heap2
      /\ exists f',
          File_.read_line f heap Fixture.buffer (Z.of_nat (List.length chunk))
          = Ok (w, f', heap2)
          /\ File_.tell f' = File_.tell f + Z.of_nat (List.length chunk)
          /\ heap2 (Fixture.buffer + w) = heap (Fixture.buffer + w)
          /\ heap2 (Fixture.buffer + w + 1) = Some 0.
Proof.
  intros f heap chunk w.
  assert (Hs : serves (handler f) heap (bytes_of_string "abcdef")) by (split; reflexivity).
  assert (Hp : 0 <= File_.tell f) by (vm_compute; discriminate).
  assert (Hskip : skipn (Z.to_nat (File_.tell f)) (bytes_of_string "abcdef")
                  = chunk ++ bytes_of_string "def") by reflexivity.
  assert (Hin : ~ In LF chunk).
  { vm_compute. intros [H|[H|[H|[]]]]; discriminate H. }
  assert (Hapart : apart (handler f) Fixture.buffer w).
  { right. vm_compute. discriminate. }
  assert (Hmax : w < 2 ^ 31) by (vm_compute; reflexivity).
  destruct (store_bytes heap Fixture.buffer (without_CR chunk))
    as [heap1|] eqn:Hline; [|vm_compute in Hline; discriminate Hline].
  destruct (store heap1 (Fixture.buffer + w + 1) 0)
    as [heap2|] eqn:Hnul.
  2: { exfalso. vm_compute in Hline. injection Hline as <-.
       vm_compute in Hnul. discriminate Hnul. }
  split; [exact Hs | split; [exact Hp | split; [exact Hskip | split; [exact Hin |]]]].
  split; [exact Hapart | split; [exact Hmax |]].
  exists heap1, heap2. split; [reflexivity | split; [exact Hnul |]].
  exact (read_line_without_line_feed f heap (bytes_of_string "abcdef") Fixture.buffer
           chunk (bytes_of_string "def") heap1 heap2
           Hs Hp Hskip Hin Hapart Hline Hnul Hmax).
Defined.

(** ** RegularFile: after a short read *)

Lemma failed_perform h heap req :
  failed h ->
  exists h', perform h heap req = Ok h'
             /\ failed h'
             /\ Handler.tell h' = -1
             /\ File_.eof (mkFile h') = false.
Proof.
  destruct h as [my|[s sz]]; [intros []|].
  cbn [failed RegularFile.file RegularFile.size_]. intros [Hf Hsz].
  assert (Hnot : forall e g c,
             Handler.tell (ARegularFile (RegularFile.mk
               (ifstream.mk (ifstream.bytes s) g e true c) sz)) = -1
             /\ File_.eof (mkFile (ARegularFile (RegularFile.mk
               (ifstream.mk (ifstream.bytes s) g e true c) sz))) = false).
  { intros e g c. unfold File_.eof. cbn.
    unfold RegularFile.tell, RegularFile.size, ifstream.tellg, ifstream.good. cbn.
    rewrite andb_false_r. split; [reflexivity|].
    change (to_size_t (-1)) with 18446744073709551615.
    apply Z.eqb_neq. lia. }
  destruct req as [n|offset origin].
  - cbn. unfold RegularFile.read, ifstream.read, ifstream.good.
    cbn. rewrite Hf, andb_false_r. cbn.
    eexists. split; [reflexivity|]. split; [cbn; auto | apply Hnot].
  - cbn. unfold RegularFile.seek, ifstream.seekg. cbn. rewrite Hf.
    eexists. split; [reflexivity|]. split; [cbn; auto | apply Hnot].
Qed.

(** X17. A read of a RegularFile that asks for more than what remains
    copies the rest of the file and returns its length, and it leaves
    the stream failed for good, since nothing in the class clears the
    state: from then on, whatever reads and seeks follow, none fails,
    [tell] answers -1 and [eof] answers false after each of them. *)
Theorem RegularFile_short_read_is_final r heap n rs :
  usable (ARegularFile r) heap = true ->
  in_bounds (ARegularFile r) ->
  RegularFile.size r - RegularFile.tell r < n < 2 ^ 63 ->
  exists r',
    RegularFile.read r n
    = (skipn (Z.to_nat (RegularFile.tell r)) (ifstream.bytes (RegularFile.file r)),
       RegularFile.size r - RegularFile.tell r, r')
    /\ RegularFile.tell r' = -1
    /\ exists trace,
        run (ARegularFile r') heap rs = Ok trace
        /\ List.length trace = List.length rs
        /\ Forall (fun h => Handler.tell h = -1 /\ File_.eof (mkFile h) = false) trace.
Proof.
  intros Hu Hb Hn.
  destruct (usable_RegularFile _ _ Hu) as (He & Hf & Hsz & Hmax & Ht).
  unfold in_bounds in Hb. cbn in Hb. rewrite Ht in *. unfold RegularFile.size in *.
  destruct r as [s sz]. cbn in He, Hf, Hsz, Hmax, Hb, Hn |- *.
  unfold RegularFile.read. cbn.
  rewrite to_streamsize_small by lia.
  unfold ifstream.read, ifstream.good. rewrite He, Hf. cbn.
  assert (Hall : firstn (Z.to_nat n) (skipn (Z.to_nat (ifstream.gpos s)) (ifstream.bytes s))
                 = skipn (Z.to_nat (ifstream.gpos s)) (ifstream.bytes s)).
  { apply firstn_all2. rewrite length_skipn. lia. }
  rewrite Hall, length_skipn.
  replace (Z.of_nat (List.length (ifstream.bytes s) - Z.to_nat (ifstream.gpos s)))
    with (sz - ifstream.gpos s) by lia.
  destruct (Z.eqb_spec (sz - ifstream.gpos s) n) as [|_]; [lia|]. cbn.
  rewrite to_size_t_small by (unfold SIZE_MAX1; lia).
  eexists. split; [reflexivity|]. split; [reflexivity|].
  set (h1 := ARegularFile _).
  assert (Hfailed : failed h1) by (cbn; split; [reflexivity | lia]).
  clearbody h1. clear - Hfailed. revert h1 Hfailed.
  induction rs as [|req rs IH]; intros h1 Hfailed.
  - exists []. repeat split; constructor.
  - destruct (failed_perform h1 heap req Hfailed) as (h2 & Hp & Hf2 & Ht2 & He2).
    destruct (IH h2 Hf2) as (trace & Hrun & Hlen & Hall).
    exists (h2 :: trace). cbn [run]. rewrite Hp. cbn [bind]. rewrite Hrun. cbn [bind].
    split; [reflexivity|]. split; [cbn; now rewrite Hlen|].
    constructor; [split; assumption | exact Hall].
Qed.

Lemma RegularFile_short_read_is_final_witness :
  let r := RegularFile.new (ifstream.opened (bytes_of_string "abc")) in
  let rs := [Seek 0 ios_beg; Read 1; Seek 0 ios_end] in
  usable (ARegularFile r) no_mem = true
  /\ in_bounds (ARegularFile r)
  /\ RegularFile.size r - RegularFile.tell r < 5 < 2 ^ 63
  /\ exists r',
      RegularFile.read r 5
      = (skipn (Z.to_nat (RegularFile.tell r)) (ifstream.bytes (RegularFile.file r)),
         RegularFile.size r - RegularFile.tell r, r')
      /\ RegularFile.tell r' = -1
      /\ exists trace,
          run (ARegularFile r') no_mem rs = Ok trace
          /\ List.length trace = List.length rs
          /\ Forall (fun h => Handler.tell h = -1 /\ File_.eof (mkFile h) = false) trace.
Proof.
  intros r rs.
  assert (Hu : usable (ARegularFile r) no_mem = true) by reflexivity.
  assert (Hb : in_bounds (ARegularFile r))
    by (unfold in_bounds; vm_compute; split; discriminate).
  assert (Hn : RegularFile.size r - RegularFile.tell r < 5 < 2 ^ 63)
    by (split; vm_compute; reflexivity).
  split; [exact Hu | split; [exact Hb | split; [exact Hn |]]].
  exact (RegularFile_short_read_is_final r no_mem 5 rs Hu Hb Hn).
Defined.

(** ** What no read and no seek changes *)

Lemma perform_preserves_file h heap req h' :
  perform h heap req = Ok h' ->
  Handler.size h' = Handler.size h
  /\ forall heap2, Handler_contents h' heap2 = Handler_contents h heap2.
Proof.
  destruct h as [my|[s sz]]; destruct req as [n|offset origin]; cbn.
  - unfold MemFile.read.
    destruct (load_bytes heap (MemFile.pointer my) _); cbn; [|discriminate].
    destruct (MemFile.size my =? 0); cbn; [discriminate|].
    intros [= <-]. split; reflexivity.
  - intros [= <-]. destruct origin; split; reflexivity.
  - unfold RegularFile.read, ifstream.read. cbn.
    destruct (ifstream.good _); cbn; intros [= <-]; split; reflexivity.
  - unfold RegularFile.seek, ifstream.seekg. cbn.
    destruct (ifstream.failbit s); [intros [= <-]; split; reflexivity|].
    destruct (_ <? 0); intros [= <-]; split; reflexivity.
Qed.

(** No request moves or resizes the array of a MemFile. *)
Lemma perform_keeps_array h heap req h' :
  perform h heap req = Ok h' ->
  forall a m, apart h' a m <-> apart h a m.
Proof.
  destruct h as [my|[s sz]]; destruct req as [n|offset origin]; cbn.
  - unfold MemFile.read.
    destruct (load_bytes heap (MemFile.pointer my) _); cbn; [|discriminate].
    destruct (MemFile.size my =? 0); cbn; [discriminate|].
    intros [= <-]. reflexivity.
  - intros [= <-]. destruct origin; reflexivity.
  - unfold RegularFile.read, ifstream.read. cbn.
    destruct (ifstream.good _); cbn; intros [= <-]; reflexivity.
  - intros [= <-]. reflexivity.
Qed.

(** A call is the request it stands for, made on the handler of the
    File, together with the store of the copied bytes. *)
Lemma do_call_perform f heap c f' heap' :
  do_call f heap c = Ok (f', heap') ->
  perform (handler f) heap (request_of c) = Ok (handler f')
  /\ match c with
     | ReadInto buffer n =>
         exists copied ret,
           Handler.read (handler f) heap n = Ok (copied, ret, handler f')
           /\ store_bytes heap buffer copied = Ok heap'
     | SeekTo _ _ => heap' = heap
     end.
Proof.
  destruct c as [buffer n|offset origin]; cbn [do_call request_of perform].
  - unfold File_.read.
    destruct (Handler.read (handler f) heap n) as [[[copied ret] h1]|] eqn:Hr;
      cbn [bind]; [|discriminate].
    destruct (store_bytes heap buffer copied) as [heap1|] eqn:Hst;
      cbn [bind]; [|discriminate].
    intros [= <- <-]. split; [reflexivity|].
    exists copied, ret. split; [reflexivity | exact Hst].
  - intros [= <- <-]. split; reflexivity.
Qed.

(** A MemFile copies at most the count it is asked for. *)
Lemma MemFile_read_length my heap n copied ret my' :
  MemFile.read my heap n = Ok (copied, ret, my') ->
  Z.of_nat (List.length copied) <= Z.max 0 n.
Proof.
  unfold MemFile.read.
  destruct (load_bytes heap (MemFile.pointer my) _) as [bs|] eqn:Hl;
    cbn [bind]; [|discriminate].
  destruct (MemFile.size my =? 0); [discriminate|].
  intros [= <- _ _]. apply load_bytes_length in Hl. lia.
Qed.

(** Bytes stored outside the array of a handler leave its file as it
    is, also where the array is not mapped. *)
Lemma Handler_contents_store_bytes h heap a bs heap' :
  store_bytes heap a bs = Ok heap' ->
  bs = [] \/ apart h a (Z.of_nat (List.length bs)) ->
  Handler_contents h heap' = Handler_contents h heap.
Proof.
  intros Hst Hap. destruct h as [my|r]; [|reflexivity].
  cbn. unfold MemFile_contents. apply load_bytes_ext.
  intros i Hi. apply (store_bytes_outside _ _ _ _ _ Hst).
  destruct Hap as [-> | Hap]; cbn in *; lia.
Qed.

Lemma do_call_keeps_file f heap c f' heap' :
  do_call f heap c = Ok (f', heap') ->
  Handler.size (handler f') = Handler.size (handler f)
  /\ (forall a m, apart (handler f') a m <-> apart (handler f) a m)
  /\ (destination_apart (handler f) c ->
      Handler_contents (handler f') heap' = Handler_contents (handler f) heap).
Proof.
  intros Hc. destruct (do_call_perform _ _ _ _ _ Hc) as [Hp Hmem].
  destruct (perform_preserves_file _ _ _ _ Hp) as [Hsz Hcs].
  split; [exact Hsz|]. split; [exact (perform_keeps_array _ _ _ _ Hp)|].
  intros Hap. rewrite Hcs.
  destruct c as [buffer n|offset origin]; [|now subst heap'].
  destruct Hmem as (copied & ret & Hr & Hst). cbn in Hap.
  apply (Handler_contents_store_bytes _ _ _ _ _ Hst).
  destruct (handler f) as [my|r] eqn:Hh; [|right; exact I].
  cbn in Hr.
  destruct (MemFile.read my heap n) as [[[copied1 ret1] my1]|] eqn:Hm;
    cbn [bind] in Hr; [|discriminate].
  injection Hr as <- _ _.
  pose proof (MemFile_read_length _ _ _ _ _ _ Hm) as Hlen.
  destruct copied1 as [|b copied1]; [left; reflexivity | right].
  cbn [List.length] in *. cbn in Hap |- *. lia.
Qed.

(** X18. No sequence of reads and seeks changes the file a File stands
    for.  After a sequence of calls that completes, each made in the
    memory the one before left, [size()] is that of the start; and the
    bytes of the file, read from the memory at the end, are those read
    from the memory at the start, provided each read copies to an array
    outside the array of a MemFile.  The state of the handler, the
    counts and the positions visited do not matter. *)
Theorem reads_and_seeks_never_change_the_file calls : forall f heap f' heap',
  do_calls f heap calls = Ok (f', heap') ->
  File_.size f' = File_.size f
  /\ (Forall (destination_apart (handler f)) calls ->
      Handler_contents (handler f') heap' = Handler_contents (handler f) heap).
Proof.
  unfold File_.size.
  induction calls as [|c calls IH]; intros f heap f' heap'; cbn [do_calls].
  - intros [= <- <-]. split; reflexivity.
  - destruct (do_call f heap c) as [[f1 heap1]|] eqn:Hc; cbn [bind]; [|discriminate].
    intros Hrest.
    destruct (do_call_keeps_file _ _ _ _ _ Hc) as (Hsz1 & Hap1 & Hcs1).
    destruct (IH _ _ _ _ Hrest) as [Hsz Hcs].
    split; [congruence|].
    intros Hall. inversion Hall as [|c0 calls0 Hc0 Hcalls]; subst.
    rewrite Hcs, Hcs1; [reflexivity | exact Hc0 |].
    eapply Forall_impl; [|exact Hcalls].
    intros [buffer n|offset origin]; cbn; [apply Hap1 | trivial].
Qed.

Lemma reads_and_seeks_never_change_the_file_witness :
  let f := Fixture.file_over (bytes_of_string "abcdef") in
  let heap := Fixture.memory_with (bytes_of_string "abcdef") 4 in
  let calls := [ReadInto Fixture.buffer 2; SeekTo 9 ios_beg; SeekTo (-6) ios_cur;
                ReadInto Fixture.buffer 4; SeekTo 2 ios_end] in
  exists f' heap',
    do_calls f heap calls = Ok (f', heap')
    /\ load_bytes heap' Fixture.buffer 4 = Ok (bytes_of_string "def" ++ [170])
    /\ File_.size f' = File_.size f
    /\ Handler_contents (handler f') heap' = Handler_contents (handler f) heap.
Proof.
  intros f heap calls.
  destruct (do_calls f heap calls) as [[f' heap']|] eqn:Hrun;
    [|vm_compute in Hrun; discriminate Hrun].
  exists f', heap'. split; [reflexivity|].
  split; [injection Hrun as <- <-; vm_compute; reflexivity|].
  destruct (reads_and_seeks_never_change_the_file calls f heap f' heap' Hrun)
    as [Hsz Hcs].
  split; [exact Hsz|]. apply Hcs.
  repeat constructor; cbn; unfold Fixture.buffer; lia.
Defined.

(** A read that copies into the array of the MemFile itself does change
    the file: reading the second half of "abcdef" to its start leaves
    "defdef". *)
Example read_into_own_array_changes_the_file :
  let f := Fixture.file_over (bytes_of_string "abcdef") in
  let heap := Fixture.memory_with (bytes_of_string "abcdef") 0 in
  Handler_contents (handler f) heap = Ok (bytes_of_string "abcdef")
  /\ match do_calls f heap [SeekTo 3 ios_beg; ReadInto 4096 3] with
     | Ok (f', heap') => Handler_contents (handler f') heap'
     | Crash e => Crash e
     end = Ok (bytes_of_string "defdef").
Proof. split; vm_compute; reflexivity. Qed.

(** ** Saving a position and coming back to it *)

Lemma seek_beg_serves h heap cs a :
  serves h heap cs -> 0 <= a ->
  serves (Handler.seek h a ios_beg) heap cs
  /\ Handler.tell (Handler.seek h a ios_beg) = a
  /\ Handler.size (Handler.seek h a ios_beg) = Handler.size h.
Proof.
  intros [Hu Hcs] Ha. destruct h as [my|rf].
  - split; [split; assumption|]. split; [positions | reflexivity].
  - destruct (usable_RegularFile _ _ Hu) as (He & Hf & Hsz & Hmax & Ht).
    destruct rf as [s sz]. cbn in He, Hf, Hsz, Hmax, Hcs.
    cbn. unfold RegularFile.seek, ifstream.seekg. cbn. rewrite Hf.
    destruct (Z.ltb_spec a 0); [lia|].
    split; [|split; [positions | reflexivity]].
    split; [|exact Hcs].
    cbn. apply andb_true_iff. split; [now apply Z.eqb_eq | now apply Z.ltb_lt].
Qed.

Lemma is_Ok_load_bytes m n : forall a,
  is_Ok (load_bytes m a n) = true
  <-> forall i, 0 <= i < Z.of_nat n -> m (a + i) <> None.
Proof.
  induction n as [|n IH]; intros a; cbn [load_bytes].
  - split; [intros _ i Hi; lia | reflexivity].
  - unfold load. split.
    + destruct (m a) as [b|] eqn:Ha; cbn [bind]; [|discriminate].
      destruct (load_bytes m (a + 1) n) as [bs|] eqn:Hl; cbn [bind]; [|discriminate].
      intros _ i Hi.
      destruct (Z.eq_dec i 0) as [->|Hne]; [rewrite Z.add_0_r; congruence|].
      assert (Hrest : is_Ok (load_bytes m (a + 1) n) = true) by now rewrite Hl.
      replace (a + i) with (a + 1 + (i - 1)) by lia.
      apply (proj1 (IH (a + 1)) Hrest). lia.
    + intros Hall.
      pose proof (Hall 0 ltac:(lia)) as H0. rewrite Z.add_0_r in H0.
      destruct (m a) as [b|]; [|congruence]. cbn [bind].
      assert (Hrest : is_Ok (load_bytes m (a + 1) n) = true).
      { apply IH. intros i Hi. replace (a + 1 + i) with (a + (i + 1)) by lia.
        apply Hall. lia. }
      destruct (load_bytes m (a + 1) n); [reflexivity | discriminate].
Qed.

(** A store maps no address and unmaps none. *)
Lemma store_bytes_keeps_mapping bs : forall m a m' x,
  store_bytes m a bs = Ok m' -> (m' x = None <-> m x = None).
Proof.
  induction bs as [|b bs IH]; intros m a m' x; cbn [store_bytes].
  - intros [= <-]. reflexivity.
  - unfold store. destruct (m a) as [b0|] eqn:Ha; cbn [bind]; [|discriminate].
    intros Hst. rewrite (IH _ _ _ x Hst).
    destruct (Z.eqb_spec x a) as [->|Hne]; [|reflexivity].
    rewrite Ha. split; discriminate.
Qed.

Lemma serves_store_bytes h heap cs a bs heap' :
  serves h heap cs ->
  apart h a (Z.of_nat (List.length bs)) ->
  store_bytes heap a bs = Ok heap' ->
  serves h heap' cs.
Proof.
  intros [Hu Hcs] Hap Hst.
  pose proof (Handler_contents_store_bytes h _ _ _ _ Hst (or_intror Hap)) as Hsame.
  split; [|now rewrite Hsame].
  destruct h as [my|r]; [|exact Hu].
  cbn in Hu, Hsame |- *. now rewrite Hsame.
Qed.

(** One call that is within the file and copies to a fit array: it
    completes, and the handler stands for the same file, in bounds, at
    the expected position, in the memory it leaves. *)
Lemma do_call_within f heap cs c :
  serves (handler f) heap cs ->
  in_bounds (handler f) ->
  within (handler f) (request_of c) = true ->
  destination_ok (handler f) heap c ->
  exists f' heap',
    do_call f heap c = Ok (f', heap')
    /\ serves (handler f') heap' cs
    /\ in_bounds (handler f')
    /\ Handler.size (handler f') = Handler.size (handler f)
    /\ Handler.tell (handler f')
       = position_after (Handler.size (handler f)) (Handler.tell (handler f))
                        (request_of c)
    /\ is_MemFile (handler f') = is_MemFile (handler f)
    /\ forall c', destination_ok (handler f) heap c' ->
                  destination_ok (handler f') heap' c'.
Proof.
  intros Hs Hb Hw Hd.
  destruct (perform_keeps_bounds _ _ _ (proj1 Hs) Hb Hw)
    as (h1 & Hp & Hu1 & Hb1 & Hsz1).
  destruct (perform_position _ _ _ _ (proj1 Hs) Hb Hw Hp) as [Ht1 Hk1].
  destruct (perform_preserves_file _ _ _ _ Hp) as [_ Hcs1].
  pose proof (perform_keeps_array _ _ _ _ Hp) as Hap1.
  assert (Hs1 : serves h1 heap cs).
  { split; [exact Hu1 | rewrite Hcs1; exact (proj2 Hs)]. }
  destruct c as [buffer n|offset origin]; cbn [request_of] in *.
  - destruct Hd as [Hmapped Hapart].
    destruct (Handler_read_within _ _ _ _ Hs Hb Hw) as (h2 & Hread & _).
    assert (h2 = h1) by (cbn [perform] in Hp; rewrite Hread in Hp; cbn in Hp; congruence).
    subst h2.
    set (copied := firstn (Z.to_nat (Z.min (Handler.size (handler f)
                                             - Handler.tell (handler f)) n))
                          (skipn (Z.to_nat (Handler.tell (handler f))) cs)) in *.
    pose proof (serves_size _ _ _ Hs) as Hsize.
    assert (Hn : 0 <= n).
    { destruct (handler f); cbn [within] in Hw; unbool; lia. }
    assert (Hlen : List.length copied
                   = Z.to_nat (Z.min (Handler.size (handler f)
                                      - Handler.tell (handler f)) n)).
    { unfold in_bounds in Hb. apply length_rest; lia. }
    destruct (store_bytes_mapped copied heap buffer) as [heap1 Hst].
    { apply is_Ok_load_bytes. intros i Hi.
      apply (proj1 (is_Ok_load_bytes _ _ _) Hmapped).
      unfold in_bounds in Hb. lia. }
    assert (Hapc : apart (handler f) buffer (Z.of_nat (List.length copied))).
    { apply (apart_sub _ _ _ _ _ Hapart); lia. }
    exists (mkFile h1), heap1.
    split.
    { cbn [do_call]. unfold File_.read. rewrite Hread. cbn [bind].
      rewrite Hst. reflexivity. }
    cbn [handler].
    split; [exact (serves_store_bytes _ _ _ _ _ _ Hs1 (proj2 (Hap1 _ _) Hapc) Hst)|].
    split; [exact Hb1|]. split; [exact Hsz1|]. split; [exact Ht1|].
    split; [exact Hk1|].
    intros [buffer' n'|offset' origin']; cbn [destination_ok]; [|trivial].
    intros [Hm' Ha']. rewrite Hsz1. split; [|now apply Hap1].
    apply is_Ok_load_bytes. intros i Hi.
    rewrite (store_bytes_keeps_mapping _ _ _ _ _ Hst).
    now apply (proj1 (is_Ok_load_bytes _ _ _) Hm').
  - exists (mkFile h1), heap.
    split.
    { cbn [do_call perform] in *. unfold File_.seek. congruence. }
    cbn [handler].
    split; [exact Hs1|]. split; [exact Hb1|]. split; [exact Hsz1|].
    split; [exact Ht1|]. split; [exact Hk1|].
    intros [buffer' n'|offset' origin']; cbn [destination_ok]; [|trivial].
    intros [Hm' Ha']. rewrite Hsz1. split; [exact Hm' | now apply Hap1].
Qed.

(** X19. A position saved with [tell] can be come back to.  Take a
    File that stands for the bytes [cs], and calls that stay within the
    file (a condition on the counts and offsets alone) and whose reads
    copy to mapped arrays outside the array of a MemFile.  Then the
    calls complete, and in the memory they leave, [seek(p, beg)] with
    the saved [p] puts the handler where a read of up to the remaining
    bytes copies the bytes it would have copied at the start, the bytes
    of the file from [p] on. *)
Theorem seek_to_saved_position_restores_read f heap cs calls n :
  serves (handler f) heap cs ->
  in_bounds (handler f) ->
  stays_within (is_MemFile (handler f)) (File_.size f) (File_.tell f)
               (map request_of calls) = true ->
  Forall (destination_ok (handler f) heap) calls ->
  0 <= n <= File_.size f - File_.tell f ->
  exists f_end heap_end copied ret1 h1 ret2 h2,
    do_calls f heap calls = Ok (f_end, heap_end)
    /\ Handler.read (handler f) heap n = Ok (copied, ret1, h1)
    /\ Handler.read (handler (File_.seek f_end (File_.tell f) ios_beg)) heap_end n
       = Ok (copied, ret2, h2)
    /\ copied = firstn (Z.to_nat n) (skipn (Z.to_nat (File_.tell f)) cs)
    /\ Handler.tell h2 = Handler.tell h1.
Proof.
  unfold File_.size, File_.tell, File_.seek. cbn [handler].
  intros Hs Hb Ha Hd Hn.
  assert (Hrun : exists f_end heap_end,
             do_calls f heap calls = Ok (f_end, heap_end)
             /\ serves (handler f_end) heap_end cs
             /\ Handler.size (handler f_end) = Handler.size (handler f)).
  { clear Hn. revert f heap Hs Hb Ha Hd.
    induction calls as [|c calls IH]; intros f heap Hs Hb Ha Hd.
    - exists f, heap. cbn. auto.
    - cbn [map stays_within] in Ha. apply andb_true_iff in Ha. destruct Ha as [Hw Ha].
      rewrite <- within_is_within_at in Hw.
      inversion Hd as [|c0 calls0 Hc Hcalls]; subst.
      destruct (do_call_within _ _ _ _ Hs Hb Hw Hc)
        as (f1 & heap1 & Hcall & Hs1 & Hb1 & Hsz1 & Ht1 & Hk1 & Hd1).
      rewrite <- Ht1, <- Hsz1, <- Hk1 in Ha.
      destruct (IH f1 heap1 Hs1 Hb1 Ha) as (f_end & heap_end & Hrest & Hs_end & Hsz_end).
      { eapply Forall_impl; [|exact Hcalls]. exact Hd1. }
      exists f_end, heap_end. cbn [do_calls]. rewrite Hcall. cbn [bind].
      split; [exact Hrest|]. split; [exact Hs_end | congruence]. }
  destruct Hrun as (f_end & heap_end & Hrun & Hs_end & Hsz).
  unfold in_bounds in Hb.
  destruct (seek_beg_serves _ _ _ (Handler.tell (handler f)) Hs_end ltac:(lia))
    as (Hs2 & Ht2 & Hsz2).
  set (h' := Handler.seek (handler f_end) (Handler.tell (handler f)) ios_beg) in *.
  assert (Hmax : Handler.size (handler f) < SIZE_MAX1).
  { destruct Hs as [Hu _]. destruct (handler f) as [my|r].
    - destruct (usable_MemFile _ _ Hu) as (Hsize & _). cbn. unfold MemFile.size_. lia.
    - destruct (usable_RegularFile _ _ Hu) as (_ & _ & _ & Hlt & _).
      cbn. unfold RegularFile.size, SIZE_MAX1. lia. }
  assert (Hw : forall g, Handler.tell g = Handler.tell (handler f) ->
                         Handler.size g = Handler.size (handler f) ->
                         within g (Read n) = true).
  { intros g Hg1 Hg2. destruct g; cbn [within]; rewrite ?Hg1, ?Hg2;
      apply andb_true_iff; split; try apply Z.leb_le; try apply Z.ltb_lt; lia. }
  destruct (Handler_read_within _ _ _ _ Hs ltac:(unfold in_bounds; lia)
              (Hw (handler f) eq_refl eq_refl)) as (h1 & Hread1 & Ht1 & _).
  destruct (Handler_read_within _ _ _ _ Hs2 ltac:(unfold in_bounds; lia)
              (Hw h' Ht2 ltac:(congruence))) as (h2 & Hread2 & Ht2' & _).
  rewrite Ht2, Hsz2, Hsz in Hread2, Ht2'.
  rewrite Z.min_r in Hread1, Hread2, Ht1, Ht2' by lia.
  exists f_end, heap_end. do 5 eexists.
  split; [exact Hrun|]. split; [exact Hread1|]. split; [exact Hread2|].
  split; [reflexivity | lia].
Qed.

Lemma seek_to_saved_position_restores_read_witness :
  let f := File_.seek (Fixture.file_over (bytes_of_string "abcdef")) 2 ios_beg in
  let heap := Fixture.memory_with (bytes_of_string "abcdef") 8 in
  let calls := [ReadInto Fixture.buffer 3; SeekTo 0 ios_end; SeekTo (-6) ios_cur;
                ReadInto (Fixture.buffer + 1) 18446744073709551615;
                SeekTo (-2) ios_end; ReadInto Fixture.buffer 1] in
  serves (handler f) heap (bytes_of_string "abcdef")
  /\ in_bounds (handler f)
  /\ stays_within (is_MemFile (handler f)) (File_.size f) (File_.tell f)
                  (map request_of calls) = true
  /\ Forall (destination_ok (handler f) heap) calls
  /\ 0 <= 3 <= File_.size f - File_.tell f
  /\ exists f_end heap_end copied ret1 h1 ret2 h2,
      do_calls f heap calls = Ok (f_end, heap_end)
      /\ Handler.read (handler f) heap 3 = Ok (copied, ret1, h1)
      /\ Handler.read (handler (File_.seek f_end (File_.tell f) ios_beg)) heap_end 3
         = Ok (copied, ret2, h2)
      /\ copied = firstn (Z.to_nat 3)
                    (skipn (Z.to_nat (File_.tell f)) (bytes_of_string "abcdef"))
      /\ Handler.tell h2 = Handler.tell h1.
Proof.
  intros f heap calls.
  assert (Hs : serves (handler f) heap (bytes_of_string "abcdef"))
    by (split; reflexivity).
  assert (Hb : in_bounds (handler f))
    by (unfold in_bounds; vm_compute; split; discriminate).
  assert (Ha : stays_within (is_MemFile (handler f)) (File_.size f) (File_.tell f)
                            (map request_of calls) = true)
    by (vm_compute; reflexivity).
  assert (Hd : Forall (destination_ok (handler f) heap) calls).
  { repeat (apply Forall_cons;
              [first [exact I
                     | split; [vm_compute; reflexivity
                              | cbn; unfold Fixture.buffer; lia]]|]).
    apply Forall_nil. }
  assert (Hn : 0 <= 3 <= File_.size f - File_.tell f)
    by (vm_compute; split; discriminate).
  split; [exact Hs | split; [exact Hb | split; [exact Ha | split; [exact Hd |
    split; [exact Hn |]]]]].
  exact (seek_to_saved_position_restores_read f heap (bytes_of_string "abcdef")
           calls 3 Hs Hb Ha Hd Hn).
Defined.

(** With a read into the array of the MemFile among the calls the read
    at the restored position copies other bytes: "abc" where the read
    at the start copied "def". *)
Example read_into_own_array_breaks_restored_read :
  let f := File_.seek (Fixture.file_over (bytes_of_string "abcdef")) 3 ios_beg in
  let heap := Fixture.memory_with (bytes_of_string "abcdef") 0 in
  match Handler.read (handler f) heap 3 with
  | Ok (copied, _, _) => Ok copied
  | Crash e => Crash e
  end = Ok (bytes_of_string "def")
  /\ match do_calls f heap [SeekTo 0 ios_beg; ReadInto (4096 + 3) 3] with
     | Ok (f_end, heap_end) =>
         match Handler.read (handler (File_.seek f_end (File_.tell f) ios_beg))
                            heap_end 3 with
         | Ok (copied, _, _) => Ok copied
         | Crash e => Crash e
         end
     | Crash e => Crash e
     end = Ok (bytes_of_string "abc").
Proof. split; vm_compute; reflexivity. Qed.

(** ** File::peek at the end of a MemFile *)

(** X20. [peek] on a usable MemFile at its end reads nothing, returns an
    indeterminate value and still steps back by one byte: the position
    is [size - 1] afterwards, so that the [get] which follows returns
    the last byte of the file. *)
Theorem peek_at_end_of_MemFile_steps_back my heap cs :
  serves (AMemFile my) heap cs ->
  MemFile.tell my = MemFile.size my ->
  exists f1 f2,
    File_.peek (mkFile (AMemFile my)) heap = Ok (None, f1)
    /\ File_.tell f1 = MemFile.size my - 1
    /\ File_.get f1 heap = Ok (nth_error cs (Z.to_nat (MemFile.size my - 1)), f2)
    /\ File_.tell f2 = MemFile.size my
    /\ nth_error cs (Z.to_nat (MemFile.size my - 1)) <> None.
Proof.
  intros Hs Hend. pose proof Hs as [Hu Hcs].
  destruct (usable_MemFile _ _ Hu) as (Hsize & _).
  pose proof (serves_size _ _ _ Hs) as Hlen. cbn in Hlen, Hcs. unfold MemFile.size_ in Hlen.
  unfold File_.peek, File_.get. cbn [handler Handler.read].
  rewrite (MemFile_read_spec _ _ _ _ Hcs Hsize) by lia.
  rewrite Hend, Z.sub_diag, Z.min_l by lia.
  change (Z.to_nat 0) with 0%nat. cbn [firstn bind handler Handler.seek MemFile.seek
    MemFile.data MemFile.beg MemFile.pointer MemFile.size].
  set (my1 := MemFile.mk_impl _ _ _ _).
  assert (Hs1 : serves (AMemFile my1) heap cs) by exact Hs.
  assert (Ht1 : MemFile.tell my1 = MemFile.size my - 1).
  { unfold my1, MemFile.tell in *. cbn. lia. }
  assert (Hb1 : in_bounds (AMemFile my1)).
  { unfold in_bounds. cbn. unfold MemFile.size_. rewrite Ht1. cbn. lia. }
  assert (Hw1 : within (AMemFile my1) (Read 1) = true) by reflexivity.
  destruct (Handler_read_byte _ _ _ Hs1 Hb1 Hw1) as (ret & h2 & Hread & Ht2 & _).
  cbn [Handler.read Handler.tell Handler.size] in Hread, Ht2.
  rewrite Ht1 in Hread, Ht2.
  assert (Hsome : nth_error cs (Z.to_nat (MemFile.size my - 1)) <> None)
    by (apply nth_error_Some; lia).
  exists (mkFile (AMemFile my1)). 
  destruct (nth_error cs (Z.to_nat (MemFile.size my - 1))) as [b|] eqn:Hnth;
    [|contradiction].
  unfold File_.get. cbn [handler Handler.read].
  destruct (MemFile.read my1 heap 1) as [[[copied n] my2]|]; cbn [bind] in Hread |- *;
    [|discriminate].
  injection Hread as -> _ <-.
  exists (mkFile (AMemFile my2)).
  split; [reflexivity|]. split; [exact Ht1|]. split; [reflexivity|].
  split; [|discriminate].
  unfold File_.tell. cbn [handler]. rewrite Ht2.
  unfold MemFile.size_. change (MemFile.size my1) with (MemFile.size my).
  destruct (Z.ltb_spec (MemFile.size my - 1) (MemFile.size my)); lia.
Qed.

Lemma peek_at_end_of_MemFile_steps_back_witness :
  let my := MemFile.seek (MemFile.new_borrowing 4096 2) 0 ios_end in
  let heap := place no_mem 4096 (bytes_of_string "ab") in
  serves (AMemFile my) heap (bytes_of_string "ab")
  /\ MemFile.tell my = MemFile.size my
  /\ exists f1 f2,
      File_.peek (mkFile (AMemFile my)) heap = Ok (None, f1)
      /\ File_.tell f1 = MemFile.size my - 1
      /\ File_.get f1 heap
         = Ok (nth_error (bytes_of_string "ab") (Z.to_nat (MemFile.size my - 1)), f2)
      /\ File_.tell f2 = MemFile.size my
      /\ nth_error (bytes_of_string "ab") (Z.to_nat (MemFile.size my - 1)) <> None.
Proof.
  intros my heap.
  assert (Hs : serves (AMemFile my) heap (bytes_of_string "ab")) by (split; reflexivity).
  assert (Hend : MemFile.tell my = MemFile.size my) by reflexivity.
  split; [exact Hs | split; [exact Hend |]].
  exact (peek_at_end_of_MemFile_steps_back my heap (bytes_of_string "ab") Hs Hend).
Defined.
